(** * The catalog synchronizer [update_agents_json.py]

    A shallow embedding of the script and the properties of its
    specification.  The script loads a JSON array of agent records, looks
    for a markdown companion file per record, cuts the text after the
    frontmatter out of it and stores that text under the record's
    [prompt] key, then writes the array back.

    Python values are modelled as follows.
    - A [str] is the list of its code points ([text]).
    - A JSON value as [json.load] builds it is a [json]; a [dict] is the
      list of its items in insertion order.
    - The file system is a [world]: the catalog file and the tree the
      companion files are looked up in.
    - Statements run in the monad [M]: they read and change a [state]
      (the world and what was printed) and return or raise.

    Paths are joined as [posixpath] joins them.  [print] is taken to
    succeed.  The final write fails in one way: a string that UTF-8
    cannot encode ends it with the catalog file cut short. *)

From Stdlib Require Import String Ascii DecimalString.
From Stdlib Require Import List NArith ZArith Arith Lia Bool.
Import ListNotations.

Set Implicit Arguments.

(** ** Text *)

(** A Python [str]: its code points, in order. *)
Definition text := list N.

(** The text of an ASCII literal of the source. *)
Definition lit (s : string) : text :=
  map N_of_ascii (list_ascii_of_string s).
Arguments lit s%_string.

Fixpoint text_eqb (a b : text) : bool :=
  match a, b with
  | [], [] => true
  | x :: a', y :: b' => N.eqb x y && text_eqb a' b'
  | _, _ => false
  end.

(** [len(s)] printed in a format string: the decimal digits. *)
Definition decimal (n : nat) : text :=
  lit (NilEmpty.string_of_uint (Nat.to_uint n)).

(** [c.isspace()] for one code point: the characters [str.strip()]
    removes when it is called without an argument. *)
Definition isspace (c : N) : bool :=
  ((9 <=? c) && (c <=? 13)
   || (28 <=? c) && (c <=? 32)
   || (c =? 133) || (c =? 160) || (c =? 5760)
   || (8192 <=? c) && (c <=? 8202)
   || (c =? 8232) || (c =? 8233) || (c =? 8239) || (c =? 8287)
   || (c =? 12288))%N.

(** [s.lstrip()]: the scan from the left end. *)
Fixpoint lstrip (s : text) : text :=
  match s with
  | [] => []
  | c :: s' => if isspace c then lstrip s' else s
  end.

(** [s.rstrip()]: the same scan from the right end. *)
Definition rstrip (s : text) : text := rev (lstrip (rev s)).

(** [s.strip()]. *)
Definition strip (s : text) : text := rstrip (lstrip s).

(** [s.startswith(p)], returning what follows the prefix. *)
Fixpoint strip_prefix (p s : text) : option text :=
  match p, s with
  | [], _ => Some s
  | _ :: _, [] => None
  | x :: p', y :: s' => if N.eqb x y then strip_prefix p' s' else None
  end.

Definition startswith (s p : text) : bool :=
  match strip_prefix p s with Some _ => true | None => false end.

(** [s.endswith(p)]. *)
Definition endswith (s p : text) : bool := startswith (rev s) (rev p).

(** [s.partition(sep)] when [sep] is found: the text before the leftmost
    occurrence of [sep] and the text after it. *)
Fixpoint partition (sep s : text) : option (text * text) :=
  match strip_prefix sep s with
  | Some rest => Some ([], rest)
  | None =>
      match s with
      | [] => None
      | c :: s' =>
          match partition sep s' with
          | Some (before, after) => Some (c :: before, after)
          | None => None
          end
      end
  end.

(** [s.split(sep, maxsplit)] for a non-empty [sep]: at most [maxsplit]
    cuts, each at the leftmost occurrence in what is left. *)
Fixpoint split (sep : text) (maxsplit : nat) (s : text) : list text :=
  match maxsplit with
  | 0 => [s]
  | S n =>
      match partition sep s with
      | Some (before, after) => before :: split sep n after
      | None => [s]
      end
  end.

(** The frontmatter delimiter. *)
Definition delimiter : text := lit "---".

(** Lines 12 to 17 of [extract_prompt_from_markdown], on the text read
    from the file. *)
Definition prompt_of_content (content : text) : text :=
  let parts := split delimiter 2 content in
  if 3 <=? length parts then strip (nth 2 parts []) else [].

(** ** [escape_json_string] *)

(** [s.replace(old, new)] for a non-empty [old]: every occurrence of
    [old], found from the left and without overlap, becomes [new].
    [skip] counts the characters of the occurrence just replaced that
    are still to be passed over. *)
Fixpoint replace_from (old new : text) (skip : nat) (s : text) : text :=
  match s with
  | [] => []
  | c :: s' =>
      match skip with
      | S k => replace_from old new k s'
      | 0 =>
          if startswith s old
          then new ++ replace_from old new (length old - 1) s'
          else c :: replace_from old new 0 s'
      end
  end.

Definition replace (old new s : text) : text := replace_from old new 0 s.

(** Lines 19 to 29.  The literals, as Python reads them: a backslash is
    92, a double quote 34, a newline 10, a tab 9, [n] 110 and [t] 116. *)
Definition escape_json_string (s : text) : text :=
  let s := replace [92%N] [92%N; 92%N] s in
  let s := replace [34%N] [92%N; 34%N] s in
  let s := replace [10%N] [92%N; 110%N] s in
  let s := replace [9%N] [92%N; 116%N] s in
  s.

(** What one character becomes when a text is escaped in a single
    pass. *)
Definition escape_char (c : N) : text :=
  if (c =? 92)%N then [92%N; 92%N]
  else if (c =? 34)%N then [92%N; 34%N]
  else if (c =? 10)%N then [92%N; 110%N]
  else if (c =? 9)%N then [92%N; 116%N]
  else [c].

(** The four characters [escape_json_string] rewrites. *)
Definition needs_escape (c : N) : bool :=
  ((c =? 92) || (c =? 34) || (c =? 10) || (c =? 9))%N.

(** Reading an escaped text back: a backslash and the character after
    it stand for one character. *)
Fixpoint unescape (s : text) : text :=
  match s with
  | [] => []
  | c :: s' =>
      if (c =? 92)%N
      then match s' with
           | [] => [c]
           | d :: s'' =>
               (if (d =? 110)%N then 10%N
                else if (d =? 116)%N then 9%N
                else d) :: unescape s''
           end
      else c :: unescape s'
  end.

(** ** Occurrences of a separator *)

(** [sep] occurs in [s] at index [i]: [s[i : i + len(sep)] == sep]. *)
Definition occurs_at (sep s : text) (i : nat) : Prop :=
  firstn (length sep) (skipn i s) = sep.

(** The two cuts of [s.split(sep, 2)]: the leftmost occurrence of [sep],
    at [i], and the leftmost one that starts after it has ended, at [j].
    Occurrences are counted as [str.count] counts them, from the left
    and without overlap. *)
Definition cut_points (sep s : text) (i j : nat) : Prop :=
  occurs_at sep s i
  /\ (forall k, k < i -> ~ occurs_at sep s k)
  /\ i + length sep <= j
  /\ occurs_at sep s j
  /\ (forall k, i + length sep <= k -> k < j -> ~ occurs_at sep s k).

(** [sep] occurs fewer than two times in [s]: no two occurrences that do
    not overlap. *)
Definition fewer_than_two (sep s : text) : Prop :=
  forall i j, occurs_at sep s i -> occurs_at sep s j -> ~ i + length sep <= j.

(** A text as [strip] leaves it when something is left: not empty, and
    no whitespace at either end. *)
Definition stripped (p : text) : Prop :=
  p <> [] /\ isspace (hd 0%N p) = false /\ isspace (last p 0%N) = false.

(** ** JSON values, exceptions and files *)

(** A value as [json.load] builds it.  A [dict] keeps its items in
    insertion order; a float is kept by its [repr], which is what both
    [str()] and [json.dump] print. *)
#[warnings="-register-all"]
Inductive json : Type :=
| JNull
| JBool (b : bool)
| JInt (z : Z)
| JFloat (repr : text)
| JStr (s : text)
| JArr (elements : list json)
| JObj (items : list (text * json)).

(** The exceptions the script can die of. *)
Inductive exn : Type :=
| FileNotFoundError
| OSError
| UnicodeDecodeError
| JSONDecodeError
| KeyError
| TypeError
| UnicodeEncodeError.

Inductive result (A : Type) : Type :=
| Ok (a : A)
| Raise (e : exn).
Arguments Ok {A} a.
Arguments Raise {A} e.

(** A text the codec [utf-8] can encode: no code point of the surrogate
    range, D800 to DFFF.  [json.load] builds such code points from
    escapes like [\ud800]. *)
Definition encodable (s : text) : bool :=
  forallb (fun c => negb ((55296 <=? c) && (c <=? 57343))%N) s.

(** A value all of whose strings, keys included, can be encoded.  The
    [repr] of a float is ASCII. *)
Fixpoint json_encodable (v : json) : bool :=
  match v with
  | JStr s => encodable s
  | JArr elements => forallb json_encodable elements
  | JObj items =>
      forallb (fun kv => match kv with
                         | (k, x) => encodable k && json_encodable x
                         end) items
  | _ => true
  end.

(** What [open(path, 'r', encoding='utf-8')] followed by a read finds at
    a path that exists: the decoded content, or the exception raised (a
    directory, a file without read permission, bytes that are not
    UTF-8). *)
Inductive file (A : Type) : Type :=
| Readable (content : A)
| Unreadable (e : exn).
Arguments Readable {A} content.
Arguments Unreadable {A} e.

(** The parts of the Python runtime the script calls and the claims do
    not look into. *)
Class Runtime : Type := {
  (** what the catalog file holds *)
  bytes : Type;
  (** [json.load(f)]: the value, or the exception of a malformed file *)
  json_load : bytes -> result json;
  (** [json.dump(v, f, indent=2, ensure_ascii=False)] *)
  json_dump : json -> bytes;
  (** what is in the file, emptied when it was opened, once [json.dump]
      has died of a string it cannot encode *)
  json_partial : json -> bytes;
  (** [str(v)] for a value [v] that is not a string *)
  py_repr : json -> text
}.

(** [d[k]] and [d[k] = v] on the items of a [dict]. *)
Fixpoint lookup (k : text) (items : list (text * json)) : option json :=
  match items with
  | [] => None
  | (k', v) :: rest => if text_eqb k' k then Some v else lookup k rest
  end.

Fixpoint assign (k : text) (v : json) (items : list (text * json))
  : list (text * json) :=
  match items with
  | [] => [(k, v)]
  | (k', v') :: rest =>
      if text_eqb k' k then (k', v) :: rest else (k', v') :: assign k v rest
  end.

(** [os.path.join(a, b)] of [posixpath]. *)
Definition path_join (a b : text) : text :=
  if startswith b (lit "/") then b
  else if (match a with [] => true | _ => false end) || endswith a (lit "/")
       then a ++ b
       else a ++ lit "/" ++ b.

Definition agents_json_path : text := lit "agent-gallery/src/data/agents.json".
Definition agents_dir : text := lit "agent-gallery/agents".

Section Program.

Context {R : Runtime}.

(** The file system: the file at [agents_json_path], and what every
    other path leads to.  A companion path ends in [.md], so none is the
    catalog's. *)
Record world : Type := mkWorld {
  catalog : option (file bytes);
  tree : text -> option (file text)
}.

Record state : Type := mkState {
  fs : world;
  stdout : list text
}.

(** ** The monad of statements *)

Definition M (A : Type) : Type := state -> result A * state.

Definition ret {A} (a : A) : M A := fun s => (Ok a, s).

Definition raise {A} (e : exn) : M A := fun s => (Raise e, s).

Definition bind {A B} (m : M A) (k : A -> M B) : M B :=
  fun s =>
    match m s with
    | (Ok a, s') => k a s'
    | (Raise e, s') => (Raise e, s')
    end.

Notation "x <- m ;; k" := (bind m (fun x => k))
  (at level 61, m at next level, right associativity).
Notation "m ;; k" := (bind m (fun _ => k))
  (at level 61, right associativity).

(** The state after some more lines went to standard output. *)
Definition emit (lines : list text) (s : state) : state :=
  mkState (fs s) (stdout s ++ lines).

(** [print(line)]. *)
Definition print (line : text) : M unit :=
  fun s => (Ok tt, emit [line] s).

(** [os.path.exists(p)]. *)
Definition path_exists (p : text) : M bool :=
  fun s => (Ok (match tree (fs s) p with Some _ => true | None => false end), s).

(** [with open(p, 'r', encoding='utf-8') as f: content = f.read()]. *)
Definition read_text (p : text) : M text :=
  fun s =>
    match tree (fs s) p with
    | None => (Raise FileNotFoundError, s)
    | Some (Unreadable e) => (Raise e, s)
    | Some (Readable content) => (Ok content, s)
    end.

(** Lines 33 and 34: open the catalog and [json.load] it. *)
Definition load_catalog : M json :=
  fun s =>
    match catalog (fs s) with
    | None => (Raise FileNotFoundError, s)
    | Some (Unreadable e) => (Raise e, s)
    | Some (Readable b) => (json_load b, s)
    end.

(** Lines 51 and 52: open the catalog for writing, which empties it,
    and [json.dump] into it.  With [ensure_ascii=False] the strings go
    to the file as they are, and the file, opened with
    [encoding='utf-8'], raises on the first one it cannot encode. *)
Definition dump_catalog (v : json) : M unit :=
  fun s =>
    if json_encodable v
    then (Ok tt,
          mkState (mkWorld (Some (Readable (json_dump v))) (tree (fs s)))
                  (stdout s))
    else (Raise UnicodeEncodeError,
          mkState (mkWorld (Some (Readable (json_partial v))) (tree (fs s)))
                  (stdout s)).

(** [agent[key]]: only a [dict] takes a string key. *)
Definition getitem (agent : json) (key : text) : M json :=
  match agent with
  | JObj items =>
      match lookup key items with
      | Some v => ret v
      | None => raise KeyError
      end
  | _ => raise TypeError
  end.

(** [agent[key] = v]; the [dict] is changed in place, the model returns
    the changed one. *)
Definition setitem (agent : json) (key : text) (v : json) : M json :=
  match agent with
  | JObj items => ret (JObj (assign key v items))
  | _ => raise TypeError
  end.

(** [f"{v}"]. *)
Definition format (v : json) : text :=
  match v with
  | JStr s => s
  | _ => py_repr v
  end.

(** ** The script *)

(** [os.path.join(agents_dir, f"{agent['id']}.md")]. *)
Definition companion_path (agent_id : json) : text :=
  path_join agents_dir (format agent_id ++ lit ".md").

Definition extract_prompt_from_markdown (file_path : text) : M text :=
  content <- read_text file_path ;;
  ret (prompt_of_content content).

(** The three lines the loop prints. *)
Definition msg_updated (agent_id : json) (n : nat) : text :=
  lit "Updated " ++ format agent_id ++ lit " - prompt length: "
    ++ decimal n ++ lit " characters".

Definition msg_no_content (agent_id : json) : text :=
  lit "Warning: No prompt content found for " ++ format agent_id.

Definition msg_not_found (agent_id : json) : text :=
  lit "Warning: Markdown file not found for " ++ format agent_id.

Definition msg_success : text :=
  [10%N] ++ lit "Successfully updated " ++ agents_json_path.

(** The body of the loop of lines 38 to 48, for one [agent]. *)
Definition loop_body (agent : json) : M json :=
  agent_id <- getitem agent (lit "id") ;;
  let md_file := companion_path agent_id in
  found <- path_exists md_file ;;
  if found then
    full_prompt <- extract_prompt_from_markdown md_file ;;
    match full_prompt with
    | _ :: _ =>
        agent' <- setitem agent (lit "prompt") (JStr full_prompt) ;;
        id' <- getitem agent' (lit "id") ;;
        print (msg_updated id' (length full_prompt)) ;;
        ret agent'
    | [] =>
        id' <- getitem agent (lit "id") ;;
        print (msg_no_content id') ;;
        ret agent
    end
  else
    id' <- getitem agent (lit "id") ;;
    print (msg_not_found id') ;;
    ret agent.

(** A [for] loop over a list, collecting what the body leaves of each
    element. *)
Fixpoint for_each (body : json -> M json) (l : list json) : M (list json) :=
  match l with
  | [] => ret []
  | x :: rest =>
      x' <- body x ;;
      rest' <- for_each body rest ;;
      ret (x' :: rest')
  end.

(** [for agent in agents: ...].  A list yields its elements, which the
    body changes in place; a [dict] yields its keys and a [str] its
    characters, all strings; nothing else can be iterated. *)
Definition update_agents (agents : json) : M json :=
  match agents with
  | JArr elements =>
      elements' <- for_each loop_body elements ;;
      ret (JArr elements')
  | JObj items =>
      for_each loop_body (map (fun kv => JStr (fst kv)) items) ;;
      ret agents
  | JStr s =>
      for_each loop_body (map (fun c => JStr [c]) s) ;;
      ret agents
  | _ => raise TypeError
  end.

(** The module body, lines 31 to 54. *)
Definition main : M unit :=
  agents <- load_catalog ;;
  agents' <- update_agents agents ;;
  dump_catalog agents' ;;
  print msg_success.

(** ** The loop as a function of the companion tree

    The loop reads the companion tree and prints; it neither reads nor
    writes the catalog file.  These functions give, for a tree, what the
    loop returns and what it prints; [loop_body_outcome] and
    [for_each_outcome] below prove that the statements above compute
    them. *)

Definition body_outcome (t : text -> option (file text)) (agent : json)
  : result json * list text :=
  match agent with
  | JObj items =>
      match lookup (lit "id") items with
      | None => (Raise KeyError, [])
      | Some v =>
          match t (companion_path v) with
          | None => (Ok agent, [msg_not_found v])
          | Some (Unreadable e) => (Raise e, [])
          | Some (Readable content) =>
              match prompt_of_content content with
              | [] => (Ok agent, [msg_no_content v])
              | c :: p =>
                  (Ok (JObj (assign (lit "prompt") (JStr (c :: p)) items)),
                   [msg_updated v (length (c :: p))])
              end
          end
      end
  | _ => (Raise TypeError, [])
  end.

Fixpoint loop_outcome (t : text -> option (file text)) (l : list json)
  : result (list json) * list text :=
  match l with
  | [] => (Ok [], [])
  | x :: rest =>
      match body_outcome t x with
      | (Ok x', out) =>
          match loop_outcome t rest with
          | (Ok rest', out') => (Ok (x' :: rest'), out ++ out')
          | (Raise e, out') => (Raise e, out ++ out')
          end
      | (Raise e, out) => (Raise e, out)
      end
  end.

(** [for agent in agents: ...] on whatever [json.load] returned. *)
Definition update_outcome (t : text -> option (file text)) (agents : json)
  : result json * list text :=
  match agents with
  | JArr elements =>
      match loop_outcome t elements with
      | (Ok elements', out) => (Ok (JArr elements'), out)
      | (Raise e, out) => (Raise e, out)
      end
  | JObj items =>
      match loop_outcome t (map (fun kv => JStr (fst kv)) items) with
      | (Ok _, out) => (Ok agents, out)
      | (Raise e, out) => (Raise e, out)
      end
  | JStr s =>
      match loop_outcome t (map (fun c => JStr [c]) s) with
      | (Ok _, out) => (Ok agents, out)
      | (Raise e, out) => (Raise e, out)
      end
  | _ => (Raise TypeError, [])
  end.

(** A record without its [prompt] item: what the run must not touch. *)
Definition without_prompt (agent : json) : json :=
  match agent with
  | JObj items =>
      JObj (filter (fun kv => negb (text_eqb (fst kv) (lit "prompt"))) items)
  | _ => agent
  end.

(** The catalog without the [prompt] items of its records. *)
Definition without_prompts (agents : json) : json :=
  match agents with
  | JArr elements => JArr (map without_prompt elements)
  | _ => agents
  end.

(** [agent.get('prompt')]. *)
Definition prompt_of (agent : json) : option json :=
  match agent with
  | JObj items => lookup (lit "prompt") items
  | _ => None
  end.

(** What a line of the report says of a record: one of the three
    messages, with the record's [id]. *)
Definition reports (agent : json) (line : text) : Prop :=
  exists items v,
    agent = JObj items
    /\ lookup (lit "id") items = Some v
    /\ (line = msg_not_found v
        \/ line = msg_no_content v
        \/ exists n, line = msg_updated v n).

End Program.

(** ** A runtime and file systems to run the script on *)

(** A catalog file is kept as the value it parses to, or as [None] when
    it is not JSON. *)
Definition sample_runtime : Runtime :=
  {| bytes := option json;
     json_load := fun b =>
       match b with Some v => Ok v | None => Raise JSONDecodeError end;
     json_dump := fun v => Some v;
     json_partial := fun _ => None;
     py_repr := fun _ => lit "?" |}.

Definition nl : text := [10%N].

Definition alpha_md : text :=
  lit "---" ++ nl ++ lit "title: x" ++ nl ++ lit "---" ++ nl
    ++ lit "Hello world." ++ nl.

Definition gamma_md : text := lit "no frontmatter here".

Definition delta_md : text :=
  lit "---" ++ nl ++ lit "---" ++ nl ++ lit "  " ++ nl.

Definition epsilon_md : text :=
  lit "intro" ++ nl ++ lit "---" ++ nl ++ lit "k: v" ++ nl ++ lit "---" ++ nl
    ++ lit "body" ++ nl ++ lit "---" ++ nl ++ lit "more" ++ nl.

(** [agents_dir] with five entries; [beta.md] is not among them and
    [zeta.md] is not UTF-8. *)
Definition sample_tree (p : text) : option (file text) :=
  if text_eqb p (lit "agent-gallery/agents/alpha.md")
  then Some (Readable alpha_md)
  else if text_eqb p (lit "agent-gallery/agents/gamma.md")
  then Some (Readable gamma_md)
  else if text_eqb p (lit "agent-gallery/agents/delta.md")
  then Some (Readable delta_md)
  else if text_eqb p (lit "agent-gallery/agents/epsilon.md")
  then Some (Readable epsilon_md)
  else if text_eqb p (lit "agent-gallery/agents/zeta.md")
  then Some (Unreadable UnicodeDecodeError)
  else None.

Definition sample_items (agent_id prompt : string) : list (text * json) :=
  [ (lit "id", JStr (lit agent_id));
    (lit "name", JStr (lit "Agent"));
    (lit "prompt", JStr (lit prompt)) ].

Definition sample_catalog : json :=
  JArr [ JObj (sample_items "alpha" "old");
         JObj (sample_items "beta" "keep-me");
         JObj (sample_items "gamma" "kept");
         JObj (sample_items "delta" "kept too");
         JObj [(lit "id", JStr (lit "epsilon"))] ].

Definition state_of (catalog_file : option (file (option json)))
  : @state sample_runtime :=
  @mkState sample_runtime (@mkWorld sample_runtime catalog_file sample_tree) [].

Definition sample_state : @state sample_runtime :=
  state_of (Some (Readable (Some sample_catalog))).

(** A catalog with a lone surrogate in the [name] of its record, as
    [json.load] reads it from the escape [\ud800]. *)
Definition surrogate_catalog : json :=
  JArr [ JObj [ (lit "id", JStr (lit "beta"));
                (lit "name", JStr [55296%N]);
                (lit "prompt", JStr (lit "keep-me")) ] ].

Definition surrogate_state : @state sample_runtime :=
  state_of (Some (Readable (Some surrogate_catalog))).

(** Catalogs the run dies of: a record whose companion cannot be read,
    and a record without an [id]. *)
Definition zeta_state : @state sample_runtime :=
  state_of (Some (Readable (Some
    (JArr [ JObj (sample_items "alpha" "old");
            JObj (sample_items "zeta" "z") ])))).

Definition no_id_state : @state sample_runtime :=
  state_of (Some (Readable (Some
    (JArr [ JObj (sample_items "alpha" "old");
            JObj [(lit "name", JStr (lit "Agent"))] ])))).


(** ** Properties of the text operations *)

Lemma strip_prefix_app (p r : text) : strip_prefix p (p ++ r) = Some r.
Proof.
  induction p as [|x p IH]; simpl; [reflexivity|].
  now rewrite N.eqb_refl.
Qed.

Lemma strip_prefix_Some (p s r : text) :
  strip_prefix p s = Some r -> s = p ++ r.
Proof.
  revert s; induction p as [|x p IH]; intros s H; simpl in *.
  - now inversion H.
  - destruct s as [|y s]; [discriminate|].
    destruct (N.eqb_spec x y) as [->|]; [|discriminate].
    now rewrite (IH _ H).
Qed.

Lemma occurs_at_0 (sep s : text) :
  occurs_at sep s 0 <-> strip_prefix sep s = Some (skipn (length sep) s).
Proof.
  unfold occurs_at; simpl; split; intros H.
  - rewrite <- (firstn_skipn (length sep) s) at 1.
    rewrite H. apply strip_prefix_app.
  - apply strip_prefix_Some in H.
    rewrite H at 1. rewrite firstn_app, firstn_all, Nat.sub_diag.
    simpl. now rewrite app_nil_r.
Qed.

Lemma not_occurs_at_0 (sep s : text) :
  ~ occurs_at sep s 0 -> strip_prefix sep s = None.
Proof.
  intros H. destruct (strip_prefix sep s) as [r|] eqn:E; [|reflexivity].
  exfalso; apply H. apply strip_prefix_Some in E. subst s.
  unfold occurs_at; simpl.
  rewrite firstn_app, firstn_all, Nat.sub_diag. simpl. apply app_nil_r.
Qed.

Lemma occurs_at_cons (sep : text) (c : N) (s : text) (k : nat) :
  occurs_at sep (c :: s) (S k) <-> occurs_at sep s k.
Proof. reflexivity. Qed.

Lemma occurs_at_skipn (sep s : text) (n k : nat) :
  occurs_at sep (skipn n s) k <-> occurs_at sep s (n + k).
Proof.
  unfold occurs_at. rewrite skipn_skipn. now rewrite (Nat.add_comm k n).
Qed.

Lemma occurs_at_app (sep a r : text) :
  occurs_at sep (a ++ sep ++ r) (length a).
Proof.
  unfold occurs_at.
  rewrite skipn_app, skipn_all, Nat.sub_diag. simpl.
  rewrite firstn_app, firstn_all, Nat.sub_diag. simpl. apply app_nil_r.
Qed.

(** [partition] cuts at the leftmost occurrence. *)
Lemma partition_leftmost (sep s : text) (i : nat) :
  occurs_at sep s i ->
  (forall k, k < i -> ~ occurs_at sep s k) ->
  partition sep s = Some (firstn i s, skipn (i + length sep) s).
Proof.
  revert s; induction i as [|i IH]; intros s Hocc Hleft.
  - apply occurs_at_0 in Hocc.
    destruct s; simpl in *; now rewrite Hocc.
  - assert (H0 : strip_prefix sep s = None).
    { apply not_occurs_at_0. apply Hleft. lia. }
    destruct s as [|c s].
    + exfalso. apply (Hleft 0); [lia|].
      unfold occurs_at in *. now rewrite skipn_nil in *.
    + simpl partition. rewrite H0.
      rewrite (IH s).
      * reflexivity.
      * now apply occurs_at_cons in Hocc.
      * intros k Hk Hc. apply (Hleft (S k)); [lia|]. now apply occurs_at_cons.
Qed.

(** What [partition] finds is an occurrence, and the parts put together
    give the text back. *)
Lemma partition_Some (sep s a r : text) :
  partition sep s = Some (a, r) -> s = a ++ sep ++ r.
Proof.
  revert a r; induction s as [|c s IH]; intros a r H.
  - simpl in H. destruct (strip_prefix sep []) eqn:E; [|discriminate].
    inversion H; subst. now apply strip_prefix_Some in E.
  - simpl in H. destruct (strip_prefix sep (c :: s)) eqn:E.
    + inversion H; subst. now apply strip_prefix_Some in E.
    + destruct (partition sep s) as [[a' r']|] eqn:E'; [|discriminate].
      inversion H; subst. simpl. f_equal. now apply IH.
Qed.

(** [split] with two cuts allowed, when there are two places to cut. *)
Lemma split_cut_points (sep s : text) (i j : nat) :
  cut_points sep s i j ->
  split sep 2 s =
    [ firstn i s;
      firstn (j - (i + length sep)) (skipn (i + length sep) s);
      skipn (j + length sep) s ].
Proof.
  intros (Hi & Hleft & Hij & Hj & Hmid).
  simpl. rewrite (partition_leftmost Hi Hleft).
  set (r := skipn (i + length sep) s).
  assert (Hr : partition sep r
               = Some (firstn (j - (i + length sep)) r,
                       skipn (j - (i + length sep) + length sep) r)).
  { apply partition_leftmost.
    - apply occurs_at_skipn.
      now replace (i + length sep + (j - (i + length sep))) with j by lia.
    - intros k Hk Hc. apply occurs_at_skipn in Hc.
      apply (Hmid (i + length sep + k)); [lia | lia | exact Hc]. }
  rewrite Hr. unfold r. rewrite skipn_skipn.
  now replace (j - (i + length sep) + length sep + (i + length sep))
    with (j + length sep) by lia.
Qed.

(** [split] returns three parts only when the separator occurs twice
    without overlap. *)
Lemma split_three_parts (sep s : text) :
  3 <= length (split sep 2 s) ->
  exists i j, occurs_at sep s i /\ occurs_at sep s j /\ i + length sep <= j.
Proof.
  simpl. destruct (partition sep s) as [[a r]|] eqn:Ea; [|simpl; lia].
  destruct (partition sep r) as [[b c]|] eqn:Eb; [|simpl; lia].
  intros _. apply partition_Some in Ea, Eb. subst r s.
  exists (length a), (length (a ++ sep ++ b)). repeat split.
  - apply occurs_at_app.
  - replace (a ++ sep ++ b ++ sep ++ c) with ((a ++ sep ++ b) ++ sep ++ c)
      by now rewrite <- !app_assoc.
    apply occurs_at_app.
  - rewrite !length_app. lia.
Qed.

Lemma prompt_of_content_cut (content : text) (i j : nat) :
  cut_points delimiter content i j ->
  prompt_of_content content = strip (skipn (j + 3) content).
Proof.
  intros H. unfold prompt_of_content.
  rewrite (split_cut_points H). reflexivity.
Qed.

Lemma prompt_of_content_few (content : text) :
  fewer_than_two delimiter content -> prompt_of_content content = [].
Proof.
  intros H. unfold prompt_of_content.
  destruct (Nat.leb_spec 3 (length (split delimiter 2 content))) as [Hlen|];
    [|reflexivity].
  destruct (split_three_parts _ _ Hlen) as (i & j & Hi & Hj & Hij).
  now destruct (H i j Hi Hj).
Qed.

(** [lstrip] removes a run of whitespace from the front and nothing
    else. *)
Lemma lstrip_decompose (s : text) :
  exists ws, s = ws ++ lstrip s /\ forallb isspace ws = true.
Proof.
  induction s as [|c s (ws & Hs & Hws)]; simpl.
  - now exists [].
  - destruct (isspace c) eqn:Ec.
    + exists (c :: ws). simpl. rewrite Ec, Hws. split; [congruence|reflexivity].
    + now exists [].
Qed.

Lemma lstrip_hd (s : text) : isspace (hd 0%N (lstrip s)) = false.
Proof.
  induction s as [|c s IH]; simpl; [reflexivity|].
  destruct (isspace c) eqn:Ec; [exact IH | exact Ec].
Qed.

(** Whitespace in front of a text that starts with another character is
    all that [lstrip] removes. *)
Lemma lstrip_app (x z : text) :
  isspace (hd 0%N z) = false -> z <> [] ->
  lstrip (x ++ z) = lstrip x ++ z.
Proof.
  intros Hz Hne. induction x as [|c x IH]; simpl.
  - destruct z as [|d z]; [congruence|]. simpl in *. now rewrite Hz.
  - destruct (isspace c); [exact IH | reflexivity].
Qed.

Lemma rstrip_app (z y : text) :
  isspace (last z 0%N) = false -> z <> [] ->
  rstrip (z ++ y) = z ++ rstrip y.
Proof.
  intros Hz Hne. unfold rstrip.
  rewrite rev_app_distr, lstrip_app.
  - now rewrite rev_app_distr, rev_involutive.
  - destruct (exists_last Hne) as (z' & d & ->).
    rewrite rev_app_distr. simpl. now rewrite last_last in Hz.
  - intros E. apply Hne. apply (f_equal (@rev N)) in E.
    now rewrite rev_involutive in E.
Qed.

Lemma rstrip_last (s : text) : isspace (last (rstrip s) 0%N) = false.
Proof.
  unfold rstrip. pose proof (lstrip_hd (rev s)) as H.
  destruct (lstrip (rev s)) as [|c r]; simpl in *; [reflexivity|].
  now rewrite last_last.
Qed.

(** [rstrip] keeps a prefix: whatever is left starts as the text did. *)
Lemma rstrip_decompose (s : text) :
  exists ws, s = rstrip s ++ ws /\ forallb isspace ws = true.
Proof.
  destruct (lstrip_decompose (rev s)) as (ws & Hs & Hws).
  exists (rev ws). split.
  - unfold rstrip. rewrite <- rev_app_distr, <- Hs. now rewrite rev_involutive.
  - rewrite forallb_forall in *. intros c Hc. apply Hws. now apply in_rev.
Qed.

(** What [strip] returns is empty or has no whitespace at its ends. *)
Lemma strip_stripped (s : text) : strip s <> [] -> stripped (strip s).
Proof.
  intros Hne. split; [exact Hne|]. split; [|apply rstrip_last].
  unfold strip in *.
  destruct (rstrip_decompose (lstrip s)) as (ws & Hs & _).
  pose proof (lstrip_hd s) as Hhd. rewrite Hs in Hhd.
  destruct (rstrip (lstrip s)); [congruence | exact Hhd].
Qed.

(** A run of characters that are not whitespace survives [strip] where
    it stands. *)
Lemma strip_around (x d y : text) :
  d <> [] -> isspace (hd 0%N d) = false -> isspace (last d 0%N) = false ->
  strip (x ++ d ++ y) = lstrip x ++ d ++ rstrip y.
Proof.
  intros Hne Hhd Hlast. unfold strip.
  rewrite lstrip_app.
  - replace (lstrip x ++ d ++ y) with ((lstrip x ++ d) ++ y)
      by now rewrite <- app_assoc.
    rewrite rstrip_app.
    + now rewrite <- app_assoc.
    + destruct (exists_last Hne) as (d' & c & ->).
      rewrite app_assoc, last_last. now rewrite last_last in Hlast.
    + intros E. apply app_eq_nil in E. now destruct E.
  - destruct d; [congruence | exact Hhd].
  - intros E. apply app_eq_nil in E. now destruct E.
Qed.

(** ** Properties of the script *)

Section Properties.

Context {R : Runtime}.

Lemma text_eqb_eq (a b : text) : text_eqb a b = true <-> a = b.
Proof.
  revert b; induction a as [|x a IH]; intros [|y b]; simpl;
    try (split; [discriminate | congruence]); [tauto|].
  rewrite andb_true_iff, N.eqb_eq, IH. split.
  - now intros [-> ->].
  - intros E; inversion E; auto.
Qed.

Lemma text_eqb_refl (a : text) : text_eqb a a = true.
Proof. now apply text_eqb_eq. Qed.

Lemma lookup_assign_same (k : text) (v : json) (items : list (text * json)) :
  lookup k (assign k v items) = Some v.
Proof.
  induction items as [|[k' v'] items IH]; simpl.
  - now rewrite text_eqb_refl.
  - destruct (text_eqb k' k) eqn:E; simpl; now rewrite E.
Qed.

Lemma lookup_assign_other (k k' : text) (v : json) (items : list (text * json)) :
  k <> k' -> lookup k' (assign k v items) = lookup k' items.
Proof.
  intros Hne. induction items as [|[k0 v0] items IH]; simpl.
  - destruct (text_eqb k k') eqn:E; [|reflexivity].
    apply text_eqb_eq in E. contradiction.
  - destruct (text_eqb k0 k) eqn:E; simpl.
    + apply text_eqb_eq in E. subst k0.
      destruct (text_eqb k k') eqn:E'; [|reflexivity].
      apply text_eqb_eq in E'. contradiction.
    + now rewrite IH.
Qed.


(** Assigning to a key leaves the other items as they were, in the
    order they were in. *)
Lemma filter_assign (k : text) (v : json) (items : list (text * json)) :
  filter (fun kv => negb (text_eqb (fst kv) k)) (assign k v items)
  = filter (fun kv => negb (text_eqb (fst kv) k)) items.
Proof.
  induction items as [|[k' v'] items IH]; simpl.
  - now rewrite text_eqb_refl.
  - destruct (text_eqb k' k) eqn:E; simpl; rewrite E; simpl; [reflexivity|].
    now rewrite IH.
Qed.

Lemma id_is_not_prompt : lit "prompt" <> lit "id".
Proof. discriminate. Qed.

Lemma emit_nil (s : state) : emit [] s = s.
Proof. destruct s. unfold emit. simpl. now rewrite app_nil_r. Qed.

Lemma emit_emit (a b : list text) (s : state) :
  emit b (emit a s) = emit (a ++ b) s.
Proof. unfold emit. simpl. now rewrite app_assoc. Qed.

(** The loop body computes [body_outcome] of the companion tree and
    prints its lines; the file system stays as it is. *)
Lemma loop_body_outcome (agent : json) (s : state) :
  loop_body agent s =
    (fst (body_outcome (tree (fs s)) agent),
     emit (snd (body_outcome (tree (fs s)) agent)) s).
Proof.
  unfold loop_body, body_outcome.
  destruct agent as [| | | | | |items];
    try (unfold bind, getitem, raise; cbn [fst snd]; now rewrite emit_nil).
  unfold bind at 1. unfold getitem at 1.
  destruct (lookup (lit "id") items) as [v|] eqn:Eid;
    [|unfold raise; cbn [fst snd]; now rewrite emit_nil].
  unfold ret at 1. unfold bind at 1, path_exists.
  destruct (tree (fs s) (companion_path v)) as [[content|e]|] eqn:Et.
  - unfold bind at 1, extract_prompt_from_markdown, bind at 1, read_text.
    rewrite Et. unfold ret at 1.
    destruct (prompt_of_content content) as [|c p] eqn:Ep.
    + unfold bind, getitem, ret, print. rewrite Eid. reflexivity.
    + unfold bind, setitem, getitem, ret, print.
      rewrite (lookup_assign_other _ _ id_is_not_prompt), Eid. reflexivity.
  - unfold bind at 1, extract_prompt_from_markdown, bind at 1, read_text.
    rewrite Et. cbn [fst snd]. now rewrite emit_nil.
  - unfold bind, getitem, ret, print. rewrite Eid. reflexivity.
Qed.

Lemma for_each_outcome (l : list json) (s : state) :
  for_each loop_body l s =
    (fst (loop_outcome (tree (fs s)) l),
     emit (snd (loop_outcome (tree (fs s)) l)) s).
Proof.
  revert s; induction l as [|x rest IH]; intros s.
  - simpl. unfold ret. now rewrite emit_nil.
  - cbn [for_each loop_outcome]. unfold bind at 1.
    rewrite loop_body_outcome.
    destruct (body_outcome (tree (fs s)) x) as [[x'|e] out]; cbn [fst snd];
      [|reflexivity].
    unfold bind at 1. rewrite IH. cbn [emit fs tree].
    destruct (loop_outcome (tree (fs s)) rest) as [[rest'|e] out'];
      cbn [fst snd]; unfold ret; now rewrite emit_emit.
Qed.

Lemma update_agents_outcome (agents : json) (s : state) :
  update_agents agents s =
    (fst (update_outcome (tree (fs s)) agents),
     emit (snd (update_outcome (tree (fs s)) agents)) s).
Proof.
  destruct agents as [| | | | str |elements|items];
    cbn [update_agents update_outcome];
    try (unfold raise; cbn [fst snd]; now rewrite emit_nil);
    unfold bind; rewrite for_each_outcome;
    match goal with
    | |- context [loop_outcome ?t ?l] =>
        destruct (loop_outcome t l) as [[l'|e] out]
    end; reflexivity.
Qed.

(** The whole run, case by case. *)
Lemma main_outcome (s : state) :
  main s =
    match catalog (fs s) with
    | None => (Raise FileNotFoundError, s)
    | Some (Unreadable e) => (Raise e, s)
    | Some (Readable b) =>
        match json_load b with
        | Raise e => (Raise e, s)
        | Ok agents =>
            match update_outcome (tree (fs s)) agents with
            | (Raise e, out) => (Raise e, emit out s)
            | (Ok agents', out) =>
                if json_encodable agents'
                then (Ok tt,
                      mkState (mkWorld (Some (Readable (json_dump agents')))
                                       (tree (fs s)))
                              (stdout s ++ out ++ [msg_success]))
                else (Raise UnicodeEncodeError,
                      mkState (mkWorld (Some (Readable (json_partial agents')))
                                       (tree (fs s)))
                              (stdout s ++ out))
            end
        end
    end.
Proof.
  unfold main. unfold bind at 1. unfold load_catalog.
  destruct (catalog (fs s)) as [[b|e]|]; try reflexivity.
  destruct (json_load b) as [agents|e]; [|reflexivity].
  unfold bind at 1. rewrite update_agents_outcome.
  destruct (update_outcome (tree (fs s)) agents) as [[agents'|e] out];
    cbn [fst snd]; [|reflexivity].
  unfold bind, dump_catalog, print, emit. cbn [fs stdout tree].
  destruct (json_encodable agents'); [|reflexivity].
  cbn [fs stdout]. now rewrite <- app_assoc.
Qed.

(** *** The loop, element by element *)

Lemma loop_outcome_nth t (l l' : list json) (out : list text) (n : nat) (a : json) :
  loop_outcome t l = (Ok l', out) ->
  nth_error l n = Some a ->
  exists a' o,
    nth_error l' n = Some a' /\ body_outcome t a = (Ok a', o) /\ incl o out.
Proof.
  revert l' out n; induction l as [|x rest IH]; intros l' out n Hl Hn.
  - destruct n; discriminate.
  - cbn [loop_outcome] in Hl.
    destruct (body_outcome t x) as [[x'|e] o] eqn:Ex; [|discriminate].
    destruct (loop_outcome t rest) as [[rest'|e] o'] eqn:Er; [|discriminate].
    inversion Hl; subst l' out; clear Hl.
    destruct n as [|n]; simpl in Hn.
    + inversion Hn; subst a. exists x', o. repeat split; auto.
      now apply incl_appl, incl_refl.
    + destruct (IH rest' o' n eq_refl Hn) as (a' & oa & H1 & H2 & H3).
      exists a', oa. repeat split; auto. now apply incl_appr.
Qed.

Lemma loop_outcome_raise t (l : list json) (a : json) (e : exn) (o : list text) :
  In a l -> body_outcome t a = (Raise e, o) ->
  exists e' out, loop_outcome t l = (Raise e', out).
Proof.
  induction l as [|x rest IH]; intros Hin Ha; [contradiction|].
  cbn [loop_outcome].
  destruct (body_outcome t x) as [[x'|ex] ox] eqn:Ex; [|now eauto].
  destruct Hin as [->|Hin]; [congruence|].
  destruct (IH Hin Ha) as (e' & out & ->). now eauto.
Qed.

(** What the body returns is the record it got, or that record with a
    stripped text assigned to [prompt]. *)
Lemma body_outcome_Ok t (a a' : json) (o : list text) :
  body_outcome t a = (Ok a', o) ->
  a' = a
  \/ exists items p,
       a = JObj items
       /\ a' = JObj (assign (lit "prompt") (JStr p) items)
       /\ stripped p.
Proof.
  unfold body_outcome.
  destruct a as [| | | | | |items]; try discriminate.
  destruct (lookup (lit "id") items) as [v|]; [|discriminate].
  destruct (t (companion_path v)) as [[content|e]|]; try discriminate.
  - destruct (prompt_of_content content) as [|c p] eqn:Ep.
    + intros H; inversion H; now left.
    + intros H; inversion H; subst. right. exists items, (c :: p).
      repeat split; try discriminate.
      * assert (Hs : stripped (prompt_of_content content)).
        { unfold prompt_of_content in *.
          destruct (3 <=? length (split delimiter 2 content)); [|discriminate].
          apply strip_stripped. now rewrite Ep. }
        rewrite Ep in Hs. apply Hs.
      * assert (Hs : stripped (prompt_of_content content)).
        { unfold prompt_of_content in *.
          destruct (3 <=? length (split delimiter 2 content)); [|discriminate].
          apply strip_stripped. now rewrite Ep. }
        rewrite Ep in Hs. apply Hs.
  - intros H; inversion H; now left.
Qed.

Lemma body_outcome_frame t (a a' : json) (o : list text) :
  body_outcome t a = (Ok a', o) -> without_prompt a' = without_prompt a.
Proof.
  intros H. destruct (body_outcome_Ok _ _ H) as [->|(items & p & -> & -> & _)];
    [reflexivity|].
  simpl. now rewrite filter_assign.
Qed.

Lemma loop_outcome_frame t (l l' : list json) (out : list text) :
  loop_outcome t l = (Ok l', out) ->
  map without_prompt l' = map without_prompt l.
Proof.
  revert l' out; induction l as [|x rest IH]; intros l' out Hl;
    cbn [loop_outcome] in Hl.
  - now inversion Hl.
  - destruct (body_outcome t x) as [[x'|e] o] eqn:Ex; [|discriminate].
    destruct (loop_outcome t rest) as [[rest'|e] o'] eqn:Er; [|discriminate].
    inversion Hl; subst. simpl. f_equal.
    + exact (body_outcome_frame _ _ Ex).
    + now apply (IH rest' o').
Qed.




Lemma update_outcome_frame t (agents agents' : json) (out : list text) :
  update_outcome t agents = (Ok agents', out) ->
  without_prompts agents' = without_prompts agents.
Proof.
  destruct agents as [| | | | str |elements|items]; cbn [update_outcome];
    try discriminate.
  - destruct (loop_outcome t (map (fun c => JStr [c]) str)) as [[l'|e] o];
      [|discriminate].
    now intros H; inversion H.
  - destruct (loop_outcome t elements) as [[l'|e] o] eqn:E; [|discriminate].
    intros H; inversion H; subst. simpl. f_equal.
    exact (loop_outcome_frame _ _ E).
  - destruct (loop_outcome t (map (fun kv => JStr (fst kv)) items))
      as [[l'|e] o]; [|discriminate].
    now intros H; inversion H.
Qed.

(** No companion path is the catalog's path: the one ends in [.md], the
    other in [.json].  Writing the catalog leaves every companion file
    as it was. *)
Lemma companion_path_not_catalog (v : json) :
  companion_path v <> agents_json_path.
Proof.
  assert (Hlast : last (companion_path v) 0%N = 100%N).
  { unfold companion_path, path_join.
    replace (format v ++ lit ".md")
      with ((format v ++ [46%N; 109%N]) ++ [100%N])
      by now rewrite <- app_assoc.
    destruct (startswith _ _); [apply last_last|].
    destruct (_ || _); rewrite ?app_assoc; apply last_last. }
  intros E. rewrite E in Hlast. vm_compute in Hlast. discriminate.
Qed.

(** *** The run on an array of records *)

Lemma main_array (s s' : state) (b : bytes) (elements : list json) :
  catalog (fs s) = Some (Readable b) ->
  json_load b = Ok (JArr elements) ->
  main s = (Ok tt, s') ->
  exists elements' out,
    loop_outcome (tree (fs s)) elements = (Ok elements', out)
    /\ s' = mkState (mkWorld (Some (Readable (json_dump (JArr elements'))))
                            (tree (fs s)))
                    (stdout s ++ out ++ [msg_success]).
Proof.
  intros Hc Hl. rewrite main_outcome, Hc, Hl. cbn [update_outcome].
  destruct (loop_outcome (tree (fs s)) elements) as [[l'|e] out];
    [|discriminate].
  destruct (json_encodable (JArr l')); [|discriminate].
  intros H; inversion H; subst. now eauto.
Qed.

Lemma main_array_raise (s : state) (b : bytes) (elements : list json)
      (a : json) (e : exn) (o : list text) :
  catalog (fs s) = Some (Readable b) ->
  json_load b = Ok (JArr elements) ->
  In a elements ->
  body_outcome (tree (fs s)) a = (Raise e, o) ->
  exists e' s', main s = (Raise e', s') /\ fs s' = fs s.
Proof.
  intros Hc Hl Hin Ha. rewrite main_outcome, Hc, Hl. cbn [update_outcome].
  destruct (loop_outcome_raise _ _ _ Hin Ha) as (e' & out & ->).
  exists e', (emit out s). now split.
Qed.

Lemma main_record (s s' : state) (b : bytes) (elements : list json)
      (n : nat) (a a' : json) (line : text) :
  catalog (fs s) = Some (Readable b) ->
  json_load b = Ok (JArr elements) ->
  nth_error elements n = Some a ->
  body_outcome (tree (fs s)) a = (Ok a', [line]) ->
  main s = (Ok tt, s') ->
  exists elements',
    catalog (fs s') = Some (Readable (json_dump (JArr elements')))
    /\ nth_error elements' n = Some a'
    /\ In line (stdout s').
Proof.
  intros Hc Hl Hn Ha Hm.
  destruct (main_array _ Hc Hl Hm) as (elements' & out & Hloop & ->).
  destruct (loop_outcome_nth _ _ _ Hloop Hn) as (a0 & o & Hn' & Ha' & Hincl).
  rewrite Ha in Ha'. inversion Ha'; subst a0 o.
  exists elements'. repeat split; auto.
  cbn [stdout]. apply in_or_app. right. apply in_or_app. left.
  apply Hincl. now left.
Qed.

(** *** The body, case by case *)

Lemma body_outcome_updated t (items : list (text * json)) (v : json)
      (content : text) (i j : nat) :
  lookup (lit "id") items = Some v ->
  t (companion_path v) = Some (Readable content) ->
  cut_points delimiter content i j ->
  strip (skipn (j + 3) content) <> [] ->
  body_outcome t (JObj items) =
    (Ok (JObj (assign (lit "prompt") (JStr (strip (skipn (j + 3) content)))
                      items)),
     [msg_updated v (length (strip (skipn (j + 3) content)))]).
Proof.
  intros Hid Ht Hcut Hne. unfold body_outcome.
  rewrite Hid, Ht, (prompt_of_content_cut Hcut).
  destruct (strip (skipn (j + 3) content)); [congruence | reflexivity].
Qed.

Lemma body_outcome_missing t (items : list (text * json)) (v : json) :
  lookup (lit "id") items = Some v ->
  t (companion_path v) = None ->
  body_outcome t (JObj items) = (Ok (JObj items), [msg_not_found v]).
Proof. intros Hid Ht. unfold body_outcome. now rewrite Hid, Ht. Qed.

Lemma body_outcome_no_content t (items : list (text * json)) (v : json)
      (content : text) :
  lookup (lit "id") items = Some v ->
  t (companion_path v) = Some (Readable content) ->
  fewer_than_two delimiter content
  \/ (exists i j, cut_points delimiter content i j
                  /\ strip (skipn (j + 3) content) = []) ->
  body_outcome t (JObj items) = (Ok (JObj items), [msg_no_content v]).
Proof.
  intros Hid Ht Hc. unfold body_outcome. rewrite Hid, Ht.
  assert (E : prompt_of_content content = []).
  { destruct Hc as [Hfew|(i & j & Hcut & Hempty)].
    - now apply prompt_of_content_few.
    - now rewrite (prompt_of_content_cut Hcut). }
  now rewrite E.
Qed.

Lemma body_outcome_unreadable t (items : list (text * json)) (v : json)
      (e : exn) :
  lookup (lit "id") items = Some v ->
  t (companion_path v) = Some (Unreadable e) ->
  body_outcome t (JObj items) = (Raise e, []).
Proof. intros Hid Ht. unfold body_outcome. now rewrite Hid, Ht. Qed.

Lemma body_outcome_no_id t (agent : json) :
  (forall items, agent = JObj items -> lookup (lit "id") items = None) ->
  exists e, (e = KeyError \/ e = TypeError)
            /\ body_outcome t agent = (Raise e, []).
Proof.
  intros H. destruct agent as [| | | | | |items];
    try (exists TypeError; split; [now right | reflexivity]).
  exists KeyError. split; [now left|].
  unfold body_outcome. now rewrite (H items eq_refl).
Qed.

(** ** The claims *)

(** C1.  A record whose companion file exists and holds the delimiter
    twice, with something other than whitespace after the second one:
    when the run has finished, the catalog written holds the record, at
    its place, with [prompt] equal to the text after the second
    delimiter, stripped. *)
Theorem prompt_updated_from_companion
        (s s' : state) (b : bytes) (elements : list json) (n : nat)
        (items : list (text * json)) (v : json) (content : text) (i j : nat) :
  catalog (fs s) = Some (Readable b) ->
  json_load b = Ok (JArr elements) ->
  nth_error elements n = Some (JObj items) ->
  lookup (lit "id") items = Some v ->
  tree (fs s) (companion_path v) = Some (Readable content) ->
  cut_points delimiter content i j ->
  strip (skipn (j + 3) content) <> [] ->
  main s = (Ok tt, s') ->
  exists elements' agent',
    catalog (fs s') = Some (Readable (json_dump (JArr elements')))
    /\ nth_error elements' n = Some agent'
    /\ prompt_of agent' = Some (JStr (strip (skipn (j + 3) content))).
Proof.
  intros Hc Hl Hn Hid Ht Hcut Hne Hm.
  pose proof (body_outcome_updated _ _ Hid Ht Hcut Hne) as Hb.
  destruct (main_record _ _ Hc Hl Hn Hb Hm) as (elements' & Hc' & Hn' & _).
  exists elements'. eexists. repeat split; eauto.
  simpl. apply lookup_assign_same.
Qed.

(** C2.  A record whose companion file does not exist: the body of the
    loop returns the record as it was and prints the line
    [Warning: Markdown file not found for] followed by the record's id,
    so the loop goes on with the records that follow; and when the run
    has finished, the catalog written holds the record unchanged,
    [prompt] included, and that line is on standard output. *)
Theorem missing_companion_keeps_prompt
        (s : state) (b : bytes) (elements : list json) (n : nat)
        (items : list (text * json)) (v : json) :
  catalog (fs s) = Some (Readable b) ->
  json_load b = Ok (JArr elements) ->
  nth_error elements n = Some (JObj items) ->
  lookup (lit "id") items = Some v ->
  tree (fs s) (companion_path v) = None ->
  (forall rest,
      for_each loop_body (JObj items :: rest) s =
        bind (for_each loop_body rest)
             (fun rest' => ret (JObj items :: rest'))
             (emit [lit "Warning: Markdown file not found for " ++ format v]
                   s))
  /\ (forall s',
        main s = (Ok tt, s') ->
        exists elements',
          catalog (fs s') = Some (Readable (json_dump (JArr elements')))
          /\ nth_error elements' n = Some (JObj items)
          /\ In (lit "Warning: Markdown file not found for " ++ format v)
                (stdout s')).
Proof.
  intros Hc Hl Hn Hid Ht.
  pose proof (body_outcome_missing _ _ Hid Ht) as Hb.
  unfold msg_not_found in Hb.
  split.
  - intros rest. cbn [for_each]. unfold bind at 1.
    now rewrite loop_body_outcome, Hb.
  - intros s' Hm. exact (main_record _ _ Hc Hl Hn Hb Hm).
Qed.

(** C3, amended.  A run that finishes writes a catalog that, with the
    [prompt] items of its records left out, is the catalog that was
    loaded: the same records in the same order, each with the same
    other items in the same order; the companion tree is as it was.  A
    run that dies leaves the file system as it was, unless it dies of
    the [UnicodeEncodeError] of the final write. *)
Theorem only_prompt_changes (s s' : state) (r : result unit) :
  main s = (r, s') ->
  match r with
  | Ok _ =>
      exists b agents agents',
        catalog (fs s) = Some (Readable b)
        /\ json_load b = Ok agents
        /\ catalog (fs s') = Some (Readable (json_dump agents'))
        /\ without_prompts agents' = without_prompts agents
        /\ tree (fs s') = tree (fs s)
  | Raise e =>
      fs s' = fs s
      \/ (e = UnicodeEncodeError /\ tree (fs s') = tree (fs s))
  end.
Proof.
  rewrite main_outcome.
  destruct (catalog (fs s)) as [[b|e]|];
    try (intros H; inversion H; now left).
  destruct (json_load b) as [agents|e] eqn:El;
    try (intros H; inversion H; now left).
  destruct (update_outcome (tree (fs s)) agents) as [[agents'|e] out] eqn:Eu;
    [|intros H; inversion H; now left].
  destruct (json_encodable agents'); intros H; inversion H; subst.
  - exists b, agents, agents'. repeat split; auto.
    exact (update_outcome_frame _ _ Eu).
  - right. now split.
Qed.



(** C5.  A record whose companion file exists and holds the delimiter
    fewer than two times, or holds it twice with nothing but whitespace
    after the second one: the body of the loop returns the record as it
    was and prints the line [Warning: No prompt content found for]
    followed by the record's id; and when the run has finished, the
    catalog written holds the record unchanged and that line is on
    standard output. *)
Theorem no_body_keeps_prompt
        (s : state) (b : bytes) (elements : list json) (n : nat)
        (items : list (text * json)) (v : json) (content : text) :
  catalog (fs s) = Some (Readable b) ->
  json_load b = Ok (JArr elements) ->
  nth_error elements n = Some (JObj items) ->
  lookup (lit "id") items = Some v ->
  tree (fs s) (companion_path v) = Some (Readable content) ->
  fewer_than_two delimiter content
  \/ (exists i j, cut_points delimiter content i j
                  /\ strip (skipn (j + 3) content) = []) ->
  loop_body (JObj items) s
  = (Ok (JObj items),
     emit [lit "Warning: No prompt content found for " ++ format v] s)
  /\ (forall s',
        main s = (Ok tt, s') ->
        exists elements',
          catalog (fs s') = Some (Readable (json_dump (JArr elements')))
          /\ nth_error elements' n = Some (JObj items)
          /\ In (lit "Warning: No prompt content found for " ++ format v)
                (stdout s')).
Proof.
  intros Hc Hl Hn Hid Ht Hcontent.
  pose proof (body_outcome_no_content _ _ Hid Ht Hcontent) as Hb.
  unfold msg_no_content in Hb.
  split.
  - now rewrite loop_body_outcome, Hb.
  - intros s' Hm. exact (main_record _ _ Hc Hl Hn Hb Hm).
Qed.

(** C6.  When the catalog file is missing, or [json.load] rejects it, or
    a record of the catalog has a companion file that exists and cannot
    be read, the run ends in an exception and the file system, so the
    catalog file, is as it was.  A missing catalog raises
    [FileNotFoundError]; a rejected one raises what [json.load]
    raised. *)
Theorem fatal_errors_write_nothing (s : state) :
  catalog (fs s) = None
  \/ (exists b e, catalog (fs s) = Some (Readable b) /\ json_load b = Raise e)
  \/ (exists b elements items v e,
        catalog (fs s) = Some (Readable b)
        /\ json_load b = Ok (JArr elements)
        /\ In (JObj items) elements
        /\ lookup (lit "id") items = Some v
        /\ tree (fs s) (companion_path v) = Some (Unreadable e)) ->
  exists e s',
    main s = (Raise e, s')
    /\ fs s' = fs s
    /\ (catalog (fs s) = None -> e = FileNotFoundError)
    /\ (forall b e0, catalog (fs s) = Some (Readable b) ->
                     json_load b = Raise e0 -> e = e0).
Proof.
  intros [Hc|[(b & e & Hc & Hl)|(b & elements & items & v & e & Hc & Hl & Hin & Hid & Ht)]].
  - rewrite main_outcome, Hc. exists FileNotFoundError, s.
    repeat split; auto. intros; discriminate.
  - rewrite main_outcome, Hc, Hl. exists e, s.
    repeat split; auto; [congruence|].
    intros b0 e0 Hb0 He0. congruence.
  - pose proof (body_outcome_unreadable _ _ Hid Ht) as Hb.
    destruct (main_array_raise _ _ Hc Hl Hin Hb) as (e' & s' & Hm & Hfs).
    exists e', s'. repeat split; auto; [congruence|].
    intros b0 e0 Hb0 He0. congruence.
Qed.

Lemma extract_readable (s : state) (file_path content : text) :
  tree (fs s) file_path = Some (Readable content) ->
  extract_prompt_from_markdown file_path s = (Ok (prompt_of_content content), s).
Proof.
  intros Ht. unfold extract_prompt_from_markdown, bind, read_text.
  now rewrite Ht.
Qed.

Lemma occurs_at_split (sep s : text) (k : nat) :
  occurs_at sep s k ->
  s = firstn k s ++ sep ++ skipn (k + length sep) s.
Proof.
  unfold occurs_at. intros H.
  rewrite <- (firstn_skipn k s) at 1. f_equal.
  rewrite <- (firstn_skipn (length sep) (skipn k s)) at 1.
  rewrite H, skipn_skipn. now rewrite (Nat.add_comm (length sep) k).
Qed.

Lemma occurs_at_bound (sep s : text) (k : nat) :
  sep <> [] -> occurs_at sep s k -> k + length sep <= length s.
Proof.
  unfold occurs_at. intros Hne H.
  apply (f_equal (@length N)) in H.
  rewrite length_firstn, length_skipn in H.
  destruct sep; [congruence|]. cbn [length] in *. lia.
Qed.

Lemma cut_points_skipn (sep s : text) (i j : nat) :
  cut_points sep s i j -> cut_points sep (skipn i s) 0 (j - i).
Proof.
  intros (Hi & _ & Hij & Hj & Hmid). repeat split.
  - apply occurs_at_skipn. now rewrite Nat.add_0_r.
  - intros k Hk. lia.
  - simpl. lia.
  - apply occurs_at_skipn. now replace (i + (j - i)) with j by lia.
  - intros k Hk1 Hk2 Hc. apply occurs_at_skipn in Hc.
    apply (Hmid (i + k)); [simpl in Hk1; lia | lia | exact Hc].
Qed.

(** C7.  A companion file that holds the delimiter at [i], at [j], the
    two cuts, and again at some later [k]: the text extracted is all
    that follows the second delimiter, stripped, and the later
    delimiter is in it, between what came before it and what came after
    it. *)
Theorem later_delimiters_are_body
        (s : state) (file_path content : text) (i j k : nat) :
  tree (fs s) file_path = Some (Readable content) ->
  cut_points delimiter content i j ->
  j + 3 <= k ->
  occurs_at delimiter content k ->
  exists x y,
    skipn (j + 3) content = x ++ delimiter ++ y
    /\ length x = k - (j + 3)
    /\ extract_prompt_from_markdown file_path s
       = (Ok (strip (skipn (j + 3) content)), s)
    /\ strip (skipn (j + 3) content) = lstrip x ++ delimiter ++ rstrip y.
Proof.
  intros Ht Hcut Hjk Hk.
  assert (Hk' : occurs_at delimiter (skipn (j + 3) content) (k - (j + 3))).
  { apply occurs_at_skipn. now replace (j + 3 + (k - (j + 3))) with k by lia. }
  pose proof (occurs_at_split Hk') as Hsplit.
  assert (Hb : k - (j + 3) + length delimiter
               <= length (skipn (j + 3) content)).
  { apply occurs_at_bound; [discriminate | exact Hk']. }
  exists (firstn (k - (j + 3)) (skipn (j + 3) content)),
         (skipn (k - (j + 3) + length delimiter) (skipn (j + 3) content)).
  repeat split.
  - exact Hsplit.
  - rewrite length_firstn. lia.
  - rewrite (extract_readable _ _ Ht). now rewrite (prompt_of_content_cut Hcut).
  - rewrite Hsplit at 1. apply strip_around; [discriminate | reflexivity ..].
Qed.

(** C8.  The body of the loop returns the record it was given, or that
    record with [prompt] assigned a text that is not empty and has no
    whitespace at its start or at its end. *)
Theorem assigned_prompt_is_stripped (agent agent' : json) (s s' : state) :
  loop_body agent s = (Ok agent', s') ->
  agent' = agent
  \/ exists items p,
       agent = JObj items
       /\ agent' = JObj (assign (lit "prompt") (JStr p) items)
       /\ stripped p.
Proof.
  rewrite loop_body_outcome.
  destruct (body_outcome (tree (fs s)) agent) as [r o] eqn:Eb.
  cbn [fst snd]. intros H; inversion H; subst.
  exact (body_outcome_Ok _ _ Eb).
Qed.

(** C9.  When an element of the catalog array is not a [dict], or is one
    without the key [id], the run ends in an exception and the file
    system, so the catalog file, is as it was. *)
Theorem missing_id_aborts
        (s : state) (b : bytes) (elements : list json) (agent : json) :
  catalog (fs s) = Some (Readable b) ->
  json_load b = Ok (JArr elements) ->
  In agent elements ->
  (forall items, agent = JObj items -> lookup (lit "id") items = None) ->
  exists e s', main s = (Raise e, s') /\ fs s' = fs s.
Proof.
  intros Hc Hl Hin Hno.
  destruct (body_outcome_no_id (tree (fs s)) Hno) as (e & _ & Hb).
  exact (main_array_raise _ _ Hc Hl Hin Hb).
Qed.

(** What [strip] returns is the text without a run of whitespace at its
    start and one at its end. *)
Lemma strip_decompose (s : text) :
  exists ws1 ws2,
    s = ws1 ++ strip s ++ ws2
    /\ forallb isspace ws1 = true
    /\ forallb isspace ws2 = true.
Proof.
  destruct (lstrip_decompose s) as (ws1 & Hs & H1).
  destruct (rstrip_decompose (lstrip s)) as (ws2 & Hl & H2).
  exists ws1, ws2. repeat split; auto.
  unfold strip. now rewrite <- Hl.
Qed.

(** C10.  A companion file whose first delimiter is at [i], wherever
    that is, and whose second is at [j]: the text [p] that the
    extraction returns is what follows the second delimiter without the
    whitespace at its two ends (the text after the delimiter is [p]
    between two runs of whitespace, and [p] is empty or has no
    whitespace at its ends); the file with everything before its first
    delimiter removed gives the same [p]; and when [p] is not empty the
    loop body returns the record with [p] under [prompt]. *)
Theorem text_before_first_delimiter_is_dropped
        (s : state) (items : list (text * json)) (v : json)
        (content : text) (i j : nat) :
  lookup (lit "id") items = Some v ->
  tree (fs s) (companion_path v) = Some (Readable content) ->
  cut_points delimiter content i j ->
  exists p ws1 ws2,
    extract_prompt_from_markdown (companion_path v) s = (Ok p, s)
    /\ skipn (j + 3) content = ws1 ++ p ++ ws2
    /\ forallb isspace ws1 = true
    /\ forallb isspace ws2 = true
    /\ (p = [] \/ stripped p)
    /\ prompt_of_content (skipn i content) = p
    /\ (p <> [] ->
        exists agent' s',
          loop_body (JObj items) s = (Ok agent', s')
          /\ prompt_of agent' = Some (JStr p)).
Proof.
  intros Hid Ht Hcut.
  destruct (strip_decompose (skipn (j + 3) content))
    as (ws1 & ws2 & Hdec & H1 & H2).
  exists (strip (skipn (j + 3) content)), ws1, ws2.
  refine (conj _ (conj Hdec (conj H1 (conj H2 (conj _ (conj _ _)))))).
  - rewrite (extract_readable _ _ Ht). now rewrite (prompt_of_content_cut Hcut).
  - destruct (strip (skipn (j + 3) content)) as [|c p] eqn:Ep; [now left|].
    right. rewrite <- Ep. apply strip_stripped. rewrite Ep. discriminate.
  - rewrite (prompt_of_content_cut (cut_points_skipn Hcut)).
    rewrite skipn_skipn. destruct Hcut as (_ & _ & Hij & _).
    now replace (j - i + 3 + i) with (j + 3) by lia.
  - intros Hne. rewrite loop_body_outcome.
    rewrite (body_outcome_updated _ _ Hid Ht Hcut Hne). cbn [fst snd].
    eexists. eexists. split; [reflexivity|].
    cbn [prompt_of]. apply lookup_assign_same.
Qed.

End Properties.

(** ** Further properties of the extraction *)

Lemma partition_before (sep s a r : text) :
  partition sep s = Some (a, r) ->
  forall k, k < length a -> ~ occurs_at sep s k.
Proof.
  revert a r; induction s as [|c s IH]; intros a r H k Hk.
  - simpl in H. destruct (strip_prefix sep []); [|discriminate].
    inversion H; subst. simpl in Hk. lia.
  - simpl in H. destruct (strip_prefix sep (c :: s)) eqn:E.
    + inversion H; subst. simpl in Hk. lia.
    + destruct (partition sep s) as [[a' r']|] eqn:E'; [|discriminate].
      inversion H; subst. destruct k as [|k].
      * intros Hc. apply occurs_at_0 in Hc. congruence.
      * intros Hc. apply occurs_at_cons in Hc.
        apply (IH a' r eq_refl k); [simpl in Hk; lia | exact Hc].
Qed.

Lemma partition_None (sep s : text) :
  partition sep s = None -> forall k, ~ occurs_at sep s k.
Proof.
  induction s as [|c s IH]; intros H k Hc.
  - simpl in H. destruct (strip_prefix sep []) eqn:E; [discriminate|].
    unfold occurs_at in Hc. rewrite skipn_nil, firstn_nil in Hc.
    subst sep. discriminate.
  - simpl in H. destruct (strip_prefix sep (c :: s)) eqn:E; [discriminate|].
    destruct (partition sep s) as [[a' r']|] eqn:E'; [discriminate|].
    destruct k as [|k].
    + apply occurs_at_0 in Hc. congruence.
    + apply occurs_at_cons in Hc. exact (IH eq_refl k Hc).
Qed.

Lemma skipn_parts (a sep r : text) :
  skipn (length a + length sep) (a ++ sep ++ r) = r.
Proof.
  rewrite Nat.add_comm, <- skipn_skipn.
  rewrite (skipn_app (length a)), skipn_all, Nat.sub_diag. cbn [skipn app].
  rewrite skipn_app, skipn_all, Nat.sub_diag. reflexivity.
Qed.

(** X12.  The extraction returns the empty text in two cases and in no
    other: the delimiter occurs fewer than two times, or there is
    nothing but whitespace after its second occurrence. *)
Theorem prompt_of_content_empty (content : text) :
  prompt_of_content content = [] <->
  fewer_than_two delimiter content
  \/ (exists i j, cut_points delimiter content i j
                  /\ strip (skipn (j + 3) content) = []).
Proof.
  split.
  - intros Hempty.
    destruct (partition delimiter content) as [[a r]|] eqn:Ea.
    + pose proof (partition_Some _ _ Ea) as Hs.
      pose proof (partition_before Ea) as Hleft.
      assert (Hr : skipn (length a + 3) content = r).
      { rewrite Hs. exact (skipn_parts a delimiter r). }
      destruct (partition delimiter r) as [[b c]|] eqn:Eb.
      * right. exists (length a), (length a + 3 + length b).
        assert (Hcut : cut_points delimiter content (length a)
                                  (length a + 3 + length b)).
        { pose proof (partition_Some _ _ Eb) as Hs'.
          pose proof (partition_before Eb) as Hleft'.
          refine (conj _ (conj _ (conj _ (conj _ _)))).
          - rewrite Hs. apply occurs_at_app.
          - exact Hleft.
          - change (length delimiter) with 3. lia.
          - replace (length a + 3 + length b) with (length a + 3 + length b)
              by reflexivity.
            apply (occurs_at_skipn delimiter content (length a + 3) (length b)).
            rewrite Hr, Hs'. apply occurs_at_app.
          - change (length delimiter) with 3. intros k Hk1 Hk2 Hc.
            apply (@partition_before _ _ _ _ Eb (k - (length a + 3))); [lia|].
            rewrite <- Hr. apply occurs_at_skipn.
            now replace (length a + 3 + (k - (length a + 3))) with k by lia. }
        split; [exact Hcut|].
        now rewrite <- (prompt_of_content_cut Hcut).
      * left. intros i j Hi Hj Hij. change (length delimiter) with 3 in Hij.
        assert (Hia : length a <= i).
        { destruct (Nat.le_gt_cases (length a) i) as [H|H]; [exact H|].
          now destruct (@partition_before _ _ _ _ Ea i H). }
        apply (@partition_None _ _ Eb (j - (length a + 3))).
        rewrite <- Hr. apply occurs_at_skipn.
        now replace (length a + 3 + (j - (length a + 3))) with j by lia.
    + left. intros i j Hi _ _. exact (@partition_None _ _ Ea i Hi).
  - intros [Hfew|(i & j & Hcut & Hs)].
    + now apply prompt_of_content_few.
    + now rewrite (prompt_of_content_cut Hcut).
Qed.

(** X11.  A text that was extracted is a piece of the file as it
    stands, and it is the end of the file: after it there is nothing but
    whitespace. *)
Theorem prompt_is_tail_of_file (content : text) :
  prompt_of_content content <> [] ->
  exists before ws,
    content = before ++ prompt_of_content content ++ ws
    /\ forallb isspace ws = true.
Proof.
  unfold prompt_of_content. cbn [split].
  destruct (partition delimiter content) as [[a r]|] eqn:Ea;
    [|cbn; congruence].
  destruct (partition delimiter r) as [[b c]|] eqn:Eb; [|cbn; congruence].
  cbn [length Nat.leb nth]. intros _.
  apply partition_Some in Ea, Eb. subst r content.
  destruct (lstrip_decompose c) as (ws1 & Hc & _).
  destruct (rstrip_decompose (lstrip c)) as (ws2 & Hl & Hws2).
  exists (a ++ delimiter ++ b ++ delimiter ++ ws1), ws2. split; [|exact Hws2].
  unfold strip. rewrite <- Hl, <- !app_assoc. now rewrite <- Hc.
Qed.


(** ** Properties of [escape_json_string] *)

(** Replacing one character is a pass that rewrites that character and
    copies the others. *)
Lemma replace_char (c : N) (new s : text) :
  replace [c] new s = flat_map (fun x => if N.eqb c x then new else [x]) s.
Proof.
  unfold replace. induction s as [|x s IH]; [reflexivity|].
  cbn [replace_from flat_map]. unfold startswith. cbn [strip_prefix].
  destruct (N.eqb c x); cbn [length Nat.sub]; now rewrite IH.
Qed.

Lemma replace_char_app (c : N) (new a b : text) :
  replace [c] new (a ++ b) = replace [c] new a ++ replace [c] new b.
Proof. rewrite !replace_char. apply flat_map_app. Qed.

Lemma escape_json_string_one (c : N) : escape_json_string [c] = escape_char c.
Proof.
  unfold escape_json_string, escape_char.
  destruct (N.eqb_spec c 92) as [->|H92]; [reflexivity|].
  destruct (N.eqb_spec c 34) as [->|H34]; [reflexivity|].
  destruct (N.eqb_spec c 10) as [->|H10]; [reflexivity|].
  destruct (N.eqb_spec c 9) as [->|H9]; [reflexivity|].
  rewrite !replace_char. cbn [flat_map app].
  assert (E92 : N.eqb 92 c = false) by (apply N.eqb_neq; congruence).
  assert (E34 : N.eqb 34 c = false) by (apply N.eqb_neq; congruence).
  assert (E10 : N.eqb 10 c = false) by (apply N.eqb_neq; congruence).
  assert (E9 : N.eqb 9 c = false) by (apply N.eqb_neq; congruence).
  rewrite E92. cbn [flat_map app]. rewrite E34. cbn [flat_map app].
  rewrite E10. cbn [flat_map app]. now rewrite E9.
Qed.

Lemma escape_app (a b : text) :
  escape_json_string (a ++ b) = escape_json_string a ++ escape_json_string b.
Proof.
  unfold escape_json_string. now rewrite !replace_char_app.
Qed.

Lemma escape_flat_map (s : text) :
  escape_json_string s = flat_map escape_char s.
Proof.
  induction s as [|c s IH]; [reflexivity|].
  change (c :: s) with ([c] ++ s).
  rewrite escape_app, escape_json_string_one, IH. reflexivity.
Qed.

(** X4.  Escaping a concatenation is concatenating the escapes. *)
Theorem escape_json_string_app (a b : text) :
  escape_json_string (a ++ b) = escape_json_string a ++ escape_json_string b.
Proof. exact (escape_app a b). Qed.

(** X1.  The four replacements, made one after the other in the order
    of the source, amount to one pass over the text that rewrites each
    character on its own: the backslashes the later replacements put in
    are not doubled, because the backslashes are replaced first. *)
Theorem escape_json_string_single_pass (s : text) :
  escape_json_string s = flat_map escape_char s.
Proof. exact (escape_flat_map s). Qed.

Lemma unescape_escape_char (c : N) (rest : text) :
  unescape (escape_char c ++ rest) = c :: unescape rest.
Proof.
  unfold escape_char.
  destruct (N.eqb_spec c 92) as [->|H92]; [reflexivity|].
  destruct (N.eqb_spec c 34) as [->|H34]; [reflexivity|].
  destruct (N.eqb_spec c 10) as [->|H10]; [reflexivity|].
  destruct (N.eqb_spec c 9) as [->|H9]; [reflexivity|].
  cbn [app unescape].
  destruct (N.eqb_spec c 92); [contradiction | reflexivity].
Qed.

Lemma unescape_escape (s : text) : unescape (escape_json_string s) = s.
Proof.
  rewrite escape_flat_map.
  induction s as [|c s IH]; [reflexivity|].
  cbn [flat_map]. now rewrite unescape_escape_char, IH.
Qed.

(** X2.  Escaping loses nothing: two different texts have different
    escapes.  A newline and a backslash followed by [n], for one, stay
    apart. *)
Theorem escape_json_string_injective (a b : text) :
  a <> b -> escape_json_string a <> escape_json_string b.
Proof.
  intros Hne H. apply Hne.
  apply (f_equal unescape) in H. now rewrite !unescape_escape in H.
Qed.

Lemma escape_char_no_newline_tab (c x : N) :
  In x (escape_char c) -> x <> 10%N /\ x <> 9%N.
Proof.
  unfold escape_char.
  destruct (N.eqb_spec c 92) as [->|H92];
    [intros [<-|[<-|[]]]; split; discriminate|].
  destruct (N.eqb_spec c 34) as [->|H34];
    [intros [<-|[<-|[]]]; split; discriminate|].
  destruct (N.eqb_spec c 10) as [->|H10];
    [intros [<-|[<-|[]]]; split; discriminate|].
  destruct (N.eqb_spec c 9) as [->|H9];
    [intros [<-|[<-|[]]]; split; discriminate|].
  intros [<-|[]]. now split.
Qed.

Lemma escape_char_shape (c : N) :
  (escape_char c = [c] /\ c <> 34%N /\ c <> 92%N)
  \/ (exists d, escape_char c = [92%N; d]).
Proof.
  unfold escape_char.
  destruct (N.eqb_spec c 92) as [->|H92]; [right; eauto|].
  destruct (N.eqb_spec c 34) as [->|H34]; [right; eauto|].
  destruct (N.eqb_spec c 10) as [->|H10]; [right; eauto|].
  destruct (N.eqb_spec c 9) as [->|H9]; [right; eauto|].
  left. auto.
Qed.

(** X3.  An escaped text holds no newline and no tab, and each double
    quote in it comes right after a backslash. *)
Theorem escape_json_string_output (s : text) :
  ~ In 10%N (escape_json_string s)
  /\ ~ In 9%N (escape_json_string s)
  /\ (forall x y, escape_json_string s = x ++ 34%N :: y ->
                  exists x', x = x' ++ [92%N]).
Proof.
  rewrite escape_flat_map. repeat split.
  - intros H. apply in_flat_map in H. destruct H as (c & _ & H).
    now destruct (escape_char_no_newline_tab _ _ H).
  - intros H. apply in_flat_map in H. destruct H as (c & _ & H).
    now destruct (escape_char_no_newline_tab _ _ H).
  - induction s as [|c s IH]; intros x y E.
    + destruct x; discriminate.
    + cbn [flat_map] in E.
      destruct (escape_char_shape c) as [(Ec & H34 & _)|(d & Ec)]; rewrite Ec in E.
      * destruct x as [|x0 x]; cbn [app] in E; injection E as E0 E1;
          [congruence|].
        destruct (IH x y E1) as (x' & ->). exists (c :: x'). now subst x0.
      * destruct x as [|x0 [|x1 x]]; cbn [app] in E.
        -- discriminate E.
        -- injection E as E0 _. exists []. now subst x0.
        -- injection E as E0 E1 E2.
           destruct (IH x y E2) as (x' & ->).
           exists (92%N :: d :: x'). now subst x0 x1.
Qed.

Lemma escape_length (s : text) :
  length (escape_json_string s) = length s + length (filter needs_escape s).
Proof.
  rewrite escape_flat_map.
  induction s as [|c s IH]; [reflexivity|].
  cbn [flat_map filter]. rewrite length_app, IH.
  unfold escape_char, needs_escape.
  destruct (N.eqb c 92); [cbn; lia|].
  destruct (N.eqb c 34); [cbn; lia|].
  destruct (N.eqb c 10); [cbn; lia|].
  destruct (N.eqb c 9); cbn; lia.
Qed.

(** X5.  The escape is longer than the text by one character for each
    backslash, double quote, newline and tab in it. *)
Theorem escape_json_string_length (s : text) :
  length (escape_json_string s) = length s + length (filter needs_escape s).
Proof. exact (escape_length s). Qed.

(** X6.  A text comes back unchanged exactly when it holds none of the
    four characters; every other character, a carriage return or
    another control character included, is copied as it is. *)
Theorem escape_json_string_fixed (s : text) :
  escape_json_string s = s <-> forallb (fun c => negb (needs_escape c)) s = true.
Proof.
  split.
  - intros H. apply (f_equal (@length N)) in H.
    rewrite escape_length in H.
    assert (Hnil : filter needs_escape s = []).
    { destruct (filter needs_escape s); [reflexivity | cbn in H; lia]. }
    clear H. induction s as [|c s IH]; [reflexivity|].
    cbn [filter forallb] in *.
    destruct (needs_escape c); [discriminate|]. cbn. now apply IH.
  - intros H. rewrite escape_flat_map.
    induction s as [|c s IH]; [reflexivity|].
    cbn [forallb flat_map] in *. apply andb_true_iff in H. destruct H as [Hc Hs].
    rewrite (IH Hs). unfold needs_escape in Hc. unfold escape_char.
    destruct (N.eqb c 92); [discriminate|].
    destruct (N.eqb c 34); [discriminate|].
    destruct (N.eqb c 10); [discriminate|].
    destruct (N.eqb c 9); [discriminate|]. reflexivity.
Qed.

(** ** Further properties of the run *)

Section Further.
Context {R : Runtime}.

Lemma body_outcome_reports t (a a' : json) (o : list text) :
  body_outcome t a = (Ok a', o) -> exists line, o = [line] /\ reports a line.
Proof.
  unfold body_outcome, reports.
  destruct a as [| | | | | |items]; try discriminate.
  destruct (lookup (lit "id") items) as [v|] eqn:Eid; [|discriminate].
  destruct (t (companion_path v)) as [[content|e]|]; try discriminate.
  - destruct (prompt_of_content content) as [|c p];
      intros H; inversion H; subst; eexists; split; try reflexivity;
      exists items, v; repeat split; eauto.
  - intros H; inversion H; subst. eexists; split; [reflexivity|].
    exists items, v. repeat split; auto.
Qed.

Lemma loop_outcome_reports t (l l' : list json) (out : list text) :
  loop_outcome t l = (Ok l', out) -> Forall2 reports l out.
Proof.
  revert l' out; induction l as [|x rest IH]; intros l' out Hl;
    cbn [loop_outcome] in Hl.
  - inversion Hl. constructor.
  - destruct (body_outcome t x) as [[x'|e] o] eqn:Ex; [|discriminate].
    destruct (loop_outcome t rest) as [[rest'|e] o'] eqn:Er; [|discriminate].
    inversion Hl; subst.
    destruct (body_outcome_reports _ _ Ex) as (line & -> & Hline).
    cbn [app]. constructor; [exact Hline|]. now apply (IH rest' o').
Qed.

(** X7.  A run that finishes prints one line for each record, in the
    order of the records and naming the [id] of its record (updated, no
    content, or no file), and then the line that reports success. *)
Theorem report_follows_the_records
        (s s' : state) (b : bytes) (elements : list json) :
  catalog (fs s) = Some (Readable b) ->
  json_load b = Ok (JArr elements) ->
  main s = (Ok tt, s') ->
  exists out,
    stdout s' = stdout s ++ out ++ [msg_success]
    /\ Forall2 reports elements out.
Proof.
  intros Hc Hl Hm.
  destruct (main_array _ Hc Hl Hm) as (elements' & out & Hloop & ->).
  exists out. split; [reflexivity|]. exact (loop_outcome_reports _ _ Hloop).
Qed.

Lemma for_each_stops (body : json -> M json) (before after : list json)
      (a : json) (before' : list json) (s s1 s2 : state) (e : exn) :
  for_each body before s = (Ok before', s1) ->
  body a s1 = (Raise e, s2) ->
  for_each body (before ++ a :: after) s = (Raise e, s2).
Proof.
  revert before' s; induction before as [|x rest IH]; intros before' s Hb Ha.
  - cbn in Hb. unfold ret in Hb. inversion Hb; subst.
    cbn [app for_each]. unfold bind. now rewrite Ha.
  - cbn [app for_each] in *. unfold bind in Hb |- *.
    destruct (body x s) as [[x'|ex] sx]; [|discriminate].
    destruct (for_each body rest sx) as [[rest'|er] sr] eqn:Er; [|discriminate].
    unfold ret in Hb. inversion Hb; subst.
    now rewrite (IH rest' sx Er Ha).
Qed.

Lemma body_outcome_raise_silent t (a : json) (e : exn) (o : list text) :
  body_outcome t a = (Raise e, o) -> o = [].
Proof.
  unfold body_outcome.
  destruct a as [| | | | | |items]; try (intros H; now inversion H).
  destruct (lookup (lit "id") items) as [v|]; [|intros H; now inversion H].
  destruct (t (companion_path v)) as [[content|e']|];
    try (intros H; now inversion H).
  destruct (prompt_of_content content); discriminate.
Qed.

(** X8.  The run ends at the first record whose body raises: with that
    exception, after the lines of the records before it, without
    looking at the records after it and without writing. *)
Theorem run_stops_at_first_failure
        (s s1 s2 : state) (b : bytes) (before after before' : list json)
        (a : json) (e : exn) :
  catalog (fs s) = Some (Readable b) ->
  json_load b = Ok (JArr (before ++ a :: after)) ->
  for_each loop_body before s = (Ok before', s1) ->
  loop_body a s1 = (Raise e, s2) ->
  main s = (Raise e, s1) /\ fs s1 = fs s.
Proof.
  intros Hc Hl Hb Ha.
  assert (Hs2 : s2 = s1).
  { rewrite loop_body_outcome in Ha.
    destruct (body_outcome (tree (fs s1)) a) as [r o] eqn:Eo.
    cbn [fst snd] in Ha. inversion Ha; subst r.
    rewrite (body_outcome_raise_silent _ _ Eo). apply emit_nil. }
  subst s2. split.
  - unfold main, bind at 1, load_catalog. rewrite Hc, Hl.
    unfold bind at 1. cbn [update_agents]. unfold bind at 1.
    now rewrite (@for_each_stops loop_body before after a before' s s1 s1 e Hb Ha).
  - rewrite for_each_outcome in Hb. now inversion Hb.
Qed.

(** X9.  A catalog that parses to something other than an array: an
    empty object and an empty string are written back as they are,
    with only the line that reports success; anything else raises
    [TypeError] before a line is printed or a file written. *)
Theorem catalog_that_is_no_array (s : state) (b : bytes) (agents : json) :
  catalog (fs s) = Some (Readable b) ->
  json_load b = Ok agents ->
  (forall elements, agents <> JArr elements) ->
  main s =
    if match agents with JObj [] | JStr [] => true | _ => false end
    then (Ok tt,
          mkState (mkWorld (Some (Readable (json_dump agents))) (tree (fs s)))
                  (stdout s ++ [msg_success]))
    else (Raise TypeError, s).
Proof.
  intros Hc Hl Hno. rewrite main_outcome, Hc, Hl.
  destruct agents as [| | | | str |elements|items]; cbn [update_outcome];
    try (now rewrite emit_nil).
  - destruct str as [|c str]; [reflexivity|]. cbn. now rewrite emit_nil.
  - now destruct (Hno elements).
  - destruct items as [|kv items]; [reflexivity|]. cbn. now rewrite emit_nil.
Qed.

Lemma assign_present (k : text) (v w : json) (items : list (text * json)) :
  lookup k items = Some w ->
  map fst (assign k v items) = map fst items.
Proof.
  induction items as [|[k' v'] items IH]; simpl; [discriminate|].
  destruct (text_eqb k' k); simpl; [reflexivity|].
  intros H. now rewrite (IH H).
Qed.

Lemma assign_absent (k : text) (v : json) (items : list (text * json)) :
  lookup k items = None -> assign k v items = items ++ [(k, v)].
Proof.
  induction items as [|[k' v'] items IH]; simpl; [reflexivity|].
  destruct (text_eqb k' k); [discriminate|].
  intros H. now rewrite (IH H).
Qed.

Lemma assign_same (k : text) (v : json) (items : list (text * json)) :
  lookup k items = Some v -> assign k v items = items.
Proof.
  induction items as [|[k' v'] items IH]; simpl; [discriminate|].
  destruct (text_eqb k' k) eqn:E.
  - intros H. now inversion H.
  - intros H. now rewrite (IH H).
Qed.

(** X10.  The body of the loop keeps the keys of a record in their
    order: a record that has a [prompt] keeps its list of keys, and a
    record that has none is left as it is or gets [prompt] after its
    last item. *)
Theorem update_keeps_key_order
        (items : list (text * json)) (agent' : json) (s s' : state) :
  loop_body (JObj items) s = (Ok agent', s') ->
  exists items',
    agent' = JObj items'
    /\ match lookup (lit "prompt") items with
       | Some _ => map fst items' = map fst items
       | None =>
           items' = items
           \/ exists p, items' = items ++ [(lit "prompt", JStr p)]
       end.
Proof.
  rewrite loop_body_outcome.
  destruct (body_outcome (tree (fs s)) (JObj items)) as [r o] eqn:Eb.
  cbn [fst snd]. intros H; inversion H; subst r s'; clear H.
  destruct (body_outcome_Ok _ _ Eb) as [->|(items0 & p & E0 & -> & _)].
  - exists items. split; [reflexivity|].
    destruct (lookup (lit "prompt") items); [reflexivity | now left].
  - inversion E0; subst items0. eexists. split; [reflexivity|].
    destruct (lookup (lit "prompt") items) as [w|] eqn:El.
    + exact (assign_present _ _ _ El).
    + right. exists p. now apply assign_absent.
Qed.

(** X13.  The companion path of a string [id]: [agents_dir], a slash,
    the [id] and [.md]; but an [id] that starts with a slash is taken
    as an absolute path, outside [agents_dir]. *)
Theorem companion_path_of_name (name : text) :
  companion_path (JStr name) =
    if startswith name (lit "/")
    then name ++ lit ".md"
    else agents_dir ++ lit "/" ++ name ++ lit ".md".
Proof.
  unfold companion_path, path_join. cbn [format].
  assert (E : startswith (name ++ lit ".md") (lit "/") = startswith name (lit "/")).
  { destruct name as [|c name]; [reflexivity|].
    unfold startswith. change (lit "/") with [47%N].
    cbn [app strip_prefix]. destruct (N.eqb 47 c); reflexivity. }
  rewrite E. destruct (startswith name (lit "/")); reflexivity.
Qed.

(** X14.  A record whose [prompt] already is the text of its companion
    file comes out of the loop body identical, and is reported as
    updated all the same. *)
Theorem update_with_same_prompt
        (s : state) (items : list (text * json)) (v : json) (content : text) :
  lookup (lit "id") items = Some v ->
  tree (fs s) (companion_path v) = Some (Readable content) ->
  prompt_of_content content <> [] ->
  lookup (lit "prompt") items = Some (JStr (prompt_of_content content)) ->
  loop_body (JObj items) s =
    (Ok (JObj items),
     emit [msg_updated v (length (prompt_of_content content))] s).
Proof.
  intros Hid Ht Hne Hp. rewrite loop_body_outcome. unfold body_outcome.
  rewrite Hid, Ht.
  destruct (prompt_of_content content) as [|c p] eqn:Ep; [congruence|].
  cbn [fst snd]. now rewrite (assign_same _ _ Hp).
Qed.

End Further.

(** ** The claims on the sample file system *)

#[local] Existing Instance sample_runtime.

(** Occurrences in a text that is written out are found by
    evaluation. *)
Ltac no_occurrence :=
  let k := fresh "k" in
  unfold not; intros k; intros;
  change (length delimiter) with 3 in *;
  do 40 (destruct k as [|k];
         [ first [ lia
                 | match goal with
                   | H : occurs_at _ _ _ |- _ => vm_compute in H; discriminate H
                   end ]
         | ]);
  lia.

Ltac concrete_cut :=
  refine (conj _ (conj _ (conj _ (conj _ _))));
  [ vm_compute; reflexivity
  | no_occurrence
  | change (length delimiter) with 3; lia
  | vm_compute; reflexivity
  | no_occurrence ].

Lemma alpha_cut : cut_points delimiter alpha_md 0 13.
Proof. concrete_cut. Defined.

Lemma delta_cut : cut_points delimiter delta_md 0 4.
Proof. concrete_cut. Defined.

(** [delta.md] holds two delimiters and then whitespace only: the
    record stays as it was. *)
Example delta_keeps_prompt :
  strip (skipn (4 + 3) delta_md) = []
  /\ loop_body (JObj (sample_items "delta" "kept too")) sample_state
     = (Ok (JObj (sample_items "delta" "kept too")),
        emit [msg_no_content (JStr (lit "delta"))] sample_state).
Proof. split; reflexivity. Qed.

Lemma epsilon_cut : cut_points delimiter epsilon_md 6 15.
Proof. concrete_cut. Defined.

Lemma gamma_few : fewer_than_two delimiter gamma_md.
Proof.
  intros i j Hi _ _.
  do 20 (destruct i as [|i]; [vm_compute in Hi; discriminate Hi|]).
  vm_compute in Hi. discriminate Hi.
Defined.

(** The example of the specification: [alpha.md] holds a frontmatter
    and [Hello world.]. *)
Lemma prompt_updated_from_companion_witness :
  exists elements' agent',
    catalog (fs (snd (@main sample_runtime sample_state)))
    = Some (Readable (@json_dump sample_runtime (JArr elements')))
    /\ nth_error elements' 0 = Some agent'
    /\ prompt_of agent' = Some (JStr (lit "Hello world.")).
Proof.
  apply (@prompt_updated_from_companion sample_runtime
           sample_state (snd (@main sample_runtime sample_state))
           (Some sample_catalog)
           (match sample_catalog with JArr l => l | _ => [] end)
           0 (sample_items "alpha" "old") (JStr (lit "alpha")) alpha_md 0 13).
  - reflexivity.
  - reflexivity.
  - reflexivity.
  - reflexivity.
  - reflexivity.
  - exact alpha_cut.
  - vm_compute. discriminate.
  - vm_compute. reflexivity.
Defined.

(** The example of the specification: there is no [beta.md]. *)
Lemma missing_companion_keeps_prompt_witness :
  (forall rest,
      for_each loop_body (JObj (sample_items "beta" "keep-me") :: rest)
               sample_state =
        bind (for_each loop_body rest)
             (fun rest' => ret (JObj (sample_items "beta" "keep-me") :: rest'))
             (emit [lit "Warning: Markdown file not found for beta"]
                   sample_state))
  /\ (forall s',
        @main sample_runtime sample_state = (Ok tt, s') ->
        exists elements',
          catalog (fs s')
          = Some (Readable (@json_dump sample_runtime (JArr elements')))
          /\ nth_error elements' 1 = Some (JObj (sample_items "beta" "keep-me"))
          /\ In (lit "Warning: Markdown file not found for beta") (stdout s')).
Proof.
  apply (@missing_companion_keeps_prompt sample_runtime
           sample_state (Some sample_catalog)
           (match sample_catalog with JArr l => l | _ => [] end)
           1 (sample_items "beta" "keep-me") (JStr (lit "beta")));
    reflexivity.
Defined.

Lemma only_prompt_changes_witness :
  exists b agents agents',
    catalog (fs sample_state) = Some (Readable b)
    /\ @json_load sample_runtime b = Ok agents
    /\ catalog (fs (snd (@main sample_runtime sample_state)))
       = Some (Readable (@json_dump sample_runtime agents'))
    /\ without_prompts agents' = without_prompts agents
    /\ tree (fs (snd (@main sample_runtime sample_state)))
       = tree (fs sample_state).
Proof.
  apply (@only_prompt_changes sample_runtime
           sample_state (snd (@main sample_runtime sample_state)) (Ok tt)).
  vm_compute. reflexivity.
Defined.

(** C3 as it was stated fails on a catalog with a lone surrogate in a
    string.  The loop leaves the record as it is; the write empties the
    catalog file and dies of the string; what is left in the file does
    not read as a catalog, so the records the file held are not in it
    after the run. *)
Lemma only_prompt_changes_counterexample :
  catalog (fs surrogate_state) = Some (Readable (Some surrogate_catalog))
  /\ @json_load sample_runtime (Some surrogate_catalog) = Ok surrogate_catalog
  /\ fst (@main sample_runtime surrogate_state) = Raise UnicodeEncodeError
  /\ catalog (fs (snd (@main sample_runtime surrogate_state)))
     <> catalog (fs surrogate_state)
  /\ ~ (exists b' agents',
          catalog (fs (snd (@main sample_runtime surrogate_state)))
          = Some (Readable b')
          /\ @json_load sample_runtime b' = Ok agents'
          /\ without_prompts agents' = without_prompts surrogate_catalog).
Proof.
  refine (conj eq_refl (conj eq_refl (conj eq_refl (conj _ _)))).
  - vm_compute. discriminate.
  - intros (b' & agents' & Hc & Hl & _).
    vm_compute in Hc. inversion Hc; subst b'. discriminate Hl.
Defined.


(** The example of the specification: [gamma.md] has no frontmatter. *)
Lemma no_body_keeps_prompt_witness :
  loop_body (JObj (sample_items "gamma" "kept")) sample_state
  = (Ok (JObj (sample_items "gamma" "kept")),
     emit [lit "Warning: No prompt content found for gamma"] sample_state)
  /\ (forall s',
        @main sample_runtime sample_state = (Ok tt, s') ->
        exists elements',
          catalog (fs s')
          = Some (Readable (@json_dump sample_runtime (JArr elements')))
          /\ nth_error elements' 2 = Some (JObj (sample_items "gamma" "kept"))
          /\ In (lit "Warning: No prompt content found for gamma") (stdout s')).
Proof.
  apply (@no_body_keeps_prompt sample_runtime
           sample_state (Some sample_catalog)
           (match sample_catalog with JArr l => l | _ => [] end)
           2 (sample_items "gamma" "kept") (JStr (lit "gamma")) gamma_md);
    try reflexivity.
  left. exact gamma_few.
Defined.

(** [zeta.md] exists and is not UTF-8. *)
Lemma fatal_errors_write_nothing_witness :
  exists e s',
    @main sample_runtime zeta_state = (Raise e, s')
    /\ fs s' = fs zeta_state
    /\ (catalog (fs zeta_state) = None -> e = FileNotFoundError)
    /\ (forall b e0, catalog (fs zeta_state) = Some (Readable b) ->
                     @json_load sample_runtime b = Raise e0 -> e = e0).
Proof.
  apply (@fatal_errors_write_nothing sample_runtime zeta_state).
  right. right.
  exists (Some (JArr [ JObj (sample_items "alpha" "old");
                       JObj (sample_items "zeta" "z") ])),
         [ JObj (sample_items "alpha" "old"); JObj (sample_items "zeta" "z") ],
         (sample_items "zeta" "z"), (JStr (lit "zeta")), UnicodeDecodeError.
  refine (conj _ (conj _ (conj _ (conj _ _)))); try reflexivity.
  right. left. reflexivity.
Defined.

(** [epsilon.md] holds the delimiter three times, after a first line. *)
Lemma later_delimiters_are_body_witness :
  exists x y,
    skipn (15 + 3) epsilon_md = x ++ delimiter ++ y
    /\ length x = 24 - (15 + 3)
    /\ extract_prompt_from_markdown (lit "agent-gallery/agents/epsilon.md")
                                    sample_state
       = (Ok (strip (skipn (15 + 3) epsilon_md)), sample_state)
    /\ strip (skipn (15 + 3) epsilon_md) = lstrip x ++ delimiter ++ rstrip y.
Proof.
  apply (@later_delimiters_are_body sample_runtime sample_state
           (lit "agent-gallery/agents/epsilon.md") epsilon_md 6 15 24).
  - reflexivity.
  - exact epsilon_cut.
  - lia.
  - vm_compute. reflexivity.
Defined.

Lemma assigned_prompt_is_stripped_witness :
  JObj (assign (lit "prompt") (JStr (lit "Hello world."))
               (sample_items "alpha" "old"))
  = JObj (sample_items "alpha" "old")
  \/ exists items p,
       JObj (sample_items "alpha" "old") = JObj items
       /\ JObj (assign (lit "prompt") (JStr (lit "Hello world."))
                       (sample_items "alpha" "old"))
          = JObj (assign (lit "prompt") (JStr p) items)
       /\ stripped p.
Proof.
  apply (@assigned_prompt_is_stripped sample_runtime
           (JObj (sample_items "alpha" "old")) _ sample_state
           (snd (@loop_body sample_runtime (JObj (sample_items "alpha" "old"))
                            sample_state))).
  vm_compute. reflexivity.
Defined.

Lemma missing_id_aborts_witness :
  exists e s',
    @main sample_runtime no_id_state = (Raise e, s')
    /\ fs s' = fs no_id_state.
Proof.
  apply (@missing_id_aborts sample_runtime no_id_state
           (Some (JArr [ JObj (sample_items "alpha" "old");
                         JObj [(lit "name", JStr (lit "Agent"))] ]))
           [ JObj (sample_items "alpha" "old");
             JObj [(lit "name", JStr (lit "Agent"))] ]
           (JObj [(lit "name", JStr (lit "Agent"))])).
  - reflexivity.
  - reflexivity.
  - right. left. reflexivity.
  - intros items H. inversion H. reflexivity.
Defined.

(** [epsilon.md] starts with a line of text; what is extracted and
    stored is [body], the third delimiter and [more], on three lines. *)
Lemma text_before_first_delimiter_is_dropped_witness :
  exists p ws1 ws2,
    p = lit "body" ++ nl ++ lit "---" ++ nl ++ lit "more"
    /\ extract_prompt_from_markdown (companion_path (JStr (lit "epsilon")))
                                    sample_state
       = (Ok p, sample_state)
    /\ skipn (15 + 3) epsilon_md = ws1 ++ p ++ ws2
    /\ forallb isspace ws1 = true
    /\ forallb isspace ws2 = true
    /\ (p = [] \/ stripped p)
    /\ prompt_of_content (skipn 6 epsilon_md) = p
    /\ (exists agent' s',
          loop_body (JObj [(lit "id", JStr (lit "epsilon"))]) sample_state
          = (Ok agent', s')
          /\ prompt_of agent' = Some (JStr p)).
Proof.
  destruct (@text_before_first_delimiter_is_dropped sample_runtime sample_state
              [(lit "id", JStr (lit "epsilon"))] (JStr (lit "epsilon"))
              epsilon_md 6 15 eq_refl eq_refl epsilon_cut)
    as (p & ws1 & ws2 & Hx & Hd & H1 & H2 & Hs & Hi & Ha).
  assert (Hp : p = lit "body" ++ nl ++ lit "---" ++ nl ++ lit "more").
  { vm_compute in Hx. now inversion Hx. }
  exists p, ws1, ws2.
  refine (conj Hp (conj Hx (conj Hd (conj H1 (conj H2 (conj Hs (conj Hi _))))))).
  apply Ha. rewrite Hp. discriminate.
Defined.

(** ** The further properties on sample inputs *)

(** [replace] passes over the occurrence it has replaced:
    ["aaa".replace("aa", "b")] is ["ba"]. *)
Example replace_without_overlap :
  replace (lit "aa") (lit "b") (lit "aaa") = lit "ba".
Proof. reflexivity. Qed.

(** A backslash, a tab and a quoted word. *)
Example escape_json_string_sample :
  escape_json_string ([92%N; 9%N; 34%N] ++ lit "hi" ++ [34%N; 10%N])
  = [92%N; 92%N; 92%N; 116%N; 92%N; 34%N] ++ lit "hi"
      ++ [92%N; 34%N; 92%N; 110%N].
Proof. reflexivity. Qed.

Lemma escape_json_string_injective_witness :
  escape_json_string [10%N] <> escape_json_string [92%N; 110%N].
Proof.
  apply (@escape_json_string_injective [10%N] [92%N; 110%N]).
  discriminate.
Defined.

Lemma prompt_is_tail_of_file_witness :
  exists before ws,
    alpha_md = before ++ prompt_of_content alpha_md ++ ws
    /\ forallb isspace ws = true.
Proof.
  apply (prompt_is_tail_of_file alpha_md).
  vm_compute. discriminate.
Defined.

Lemma report_follows_the_records_witness :
  exists out,
    stdout (snd (@main sample_runtime sample_state))
    = stdout sample_state ++ out ++ [msg_success]
    /\ Forall2 reports
               (match sample_catalog with JArr l => l | _ => [] end) out.
Proof.
  apply (@report_follows_the_records sample_runtime
           sample_state (snd (@main sample_runtime sample_state))
           (Some sample_catalog)).
  - reflexivity.
  - reflexivity.
  - vm_compute. reflexivity.
Defined.

(** [alpha] is updated, then [zeta.md] cannot be read. *)
Lemma run_stops_at_first_failure_witness :
  @main sample_runtime zeta_state
  = (Raise UnicodeDecodeError,
     snd (for_each loop_body [JObj (sample_items "alpha" "old")] zeta_state))
  /\ fs (snd (for_each loop_body [JObj (sample_items "alpha" "old")]
                       zeta_state))
     = fs zeta_state.
Proof.
  apply (@run_stops_at_first_failure sample_runtime zeta_state
           (snd (for_each loop_body [JObj (sample_items "alpha" "old")]
                          zeta_state))
           (snd (for_each loop_body [JObj (sample_items "alpha" "old")]
                          zeta_state))
           (Some (JArr [ JObj (sample_items "alpha" "old");
                         JObj (sample_items "zeta" "z") ]))
           [JObj (sample_items "alpha" "old")] []
           [JObj (assign (lit "prompt") (JStr (lit "Hello world."))
                         (sample_items "alpha" "old"))]
           (JObj (sample_items "zeta" "z")) UnicodeDecodeError).
  - reflexivity.
  - reflexivity.
  - vm_compute. reflexivity.
  - vm_compute. reflexivity.
Defined.

(** A catalog file that holds an object with one key. *)
Lemma catalog_that_is_no_array_witness :
  @main sample_runtime
        (state_of (Some (Readable (Some (JObj [(lit "id", JStr (lit "alpha"))])))))
  = (Raise TypeError,
     state_of (Some (Readable (Some (JObj [(lit "id", JStr (lit "alpha"))]))))).
Proof.
  apply (@catalog_that_is_no_array sample_runtime
           (state_of (Some (Readable
              (Some (JObj [(lit "id", JStr (lit "alpha"))])))))
           (Some (JObj [(lit "id", JStr (lit "alpha"))]))
           (JObj [(lit "id", JStr (lit "alpha"))])).
  - reflexivity.
  - reflexivity.
  - intros elements H. discriminate H.
Defined.

(** The record of [epsilon] has no [prompt]: it gets one at its end. *)
Lemma update_keeps_key_order_witness :
  exists items',
    JObj ([(lit "id", JStr (lit "epsilon"))]
            ++ [(lit "prompt", JStr (prompt_of_content epsilon_md))])
    = JObj items'
    /\ (items' = [(lit "id", JStr (lit "epsilon"))]
        \/ exists p,
            items' = [(lit "id", JStr (lit "epsilon"))]
                       ++ [(lit "prompt", JStr p)]).
Proof.
  apply (@update_keeps_key_order sample_runtime
           [(lit "id", JStr (lit "epsilon"))] _ sample_state
           (snd (loop_body (JObj [(lit "id", JStr (lit "epsilon"))])
                           sample_state))).
  vm_compute. reflexivity.
Defined.

Lemma update_with_same_prompt_witness :
  loop_body (JObj (sample_items "alpha" "Hello world.")) sample_state
  = (Ok (JObj (sample_items "alpha" "Hello world.")),
     emit [msg_updated (JStr (lit "alpha"))
                       (length (prompt_of_content alpha_md))]
          sample_state).
Proof.
  apply (@update_with_same_prompt sample_runtime sample_state
           (sample_items "alpha" "Hello world.") (JStr (lit "alpha")) alpha_md).
  - reflexivity.
  - reflexivity.
  - vm_compute. discriminate.
  - reflexivity.
Defined.
